(** * Shallow embedding of long-running-harness/security.py

    The bash allowlist hook of the autonomous coding harness: the segmenter
    [split_command_segments], the extractor [extract_commands], the three
    per-command validators and the hook [bash_security_hook].

    Python strings are modelled as Rocq [string] (ASCII characters); the
    regular expressions of the source are modelled by the scanners they
    denote, each next to its pattern. *)

From Stdlib Require Import Strings.String Strings.Ascii Lists.List Bool.Bool Arith.Arith Lia.
Import ListNotations.
Open Scope string_scope.

(** ** Characters and string helpers *)

Definition ascii_eqb (a b : ascii) : bool := if ascii_dec a b then true else false.

(** Python's [str.isspace] on ASCII, which is also what [str.split()],
    [str.strip()] and the regex class [\s] use: [\t \n \v \f \r], the
    separators [\x1c]-[\x1f], and the space. *)
Definition py_isspace (c : ascii) : bool :=
  let n := nat_of_ascii c in
  (((9 <=? n) && (n <=? 13)) || ((28 <=? n) && (n <=? 32)))%nat.

(** The whitespace of [shlex]: [' \t\r\n']. *)
Definition shlex_isspace (c : ascii) : bool :=
  let n := nat_of_ascii c in
  ((n =? 32) || (n =? 9) || (n =? 13) || (n =? 10))%nat.

Definition chr (n : nat) : ascii := ascii_of_nat n.
Definition sq : ascii := chr 39.   (* single quote *)
Definition dq : ascii := chr 34.   (* double quote *)
Definition bs : ascii := chr 92.   (* backslash *)
Definition str1 (c : ascii) : string := String c EmptyString.

Fixpoint str_mem (c : ascii) (s : string) : bool :=
  match s with
  | EmptyString => false
  | String d s' => ascii_eqb c d || str_mem c s'
  end.

(** [s.startswith(p)] *)
Fixpoint starts_with (p s : string) : bool :=
  match p, s with
  | EmptyString, _ => true
  | String a p', String b s' => ascii_eqb a b && starts_with p' s'
  | String _ _, EmptyString => false
  end.

(** [s.endswith(p)] *)
Definition ends_with (p s : string) : bool :=
  ((String.length p <=? String.length s)%nat &&
   String.eqb (substring (String.length s - String.length p) (String.length p) s) p).

Fixpoint lstrip (s : string) : string :=
  match s with
  | EmptyString => EmptyString
  | String c s' => if py_isspace c then lstrip s' else s
  end.

Fixpoint rev_str (s : string) (acc : string) : string :=
  match s with
  | EmptyString => acc
  | String c s' => rev_str s' (String c acc)
  end.

Definition rstrip (s : string) : string := rev_str (lstrip (rev_str s EmptyString)) EmptyString.

(** [s.strip()] *)
Definition strip (s : string) : string := rstrip (lstrip s).

(** [s.split()] with no separator: the maximal runs of non-whitespace. *)
Fixpoint py_split_aux (s : string) (cur : string) : list string :=
  match s with
  | EmptyString => if String.eqb cur EmptyString then [] else [cur]
  | String c s' =>
      if py_isspace c then
        app (if String.eqb cur EmptyString then [] else [cur]) (py_split_aux s' EmptyString)
      else py_split_aux s' (cur ++ str1 c)
  end.

Definition py_split (s : string) : list string := py_split_aux s EmptyString.

(** [s.split(sep)[-1]] for a one-character [sep]: the text after the last [sep]. *)
Fixpoint after_last (sep : ascii) (s : string) (acc : string) : string :=
  match s with
  | EmptyString => acc
  | String c s' => if ascii_eqb c sep then after_last sep s' EmptyString
                   else after_last sep s' (acc ++ str1 c)
  end.

(** [s.split(sep)[0]] for a one-character [sep]: the text before the first [sep]. *)
Fixpoint before_first (sep : ascii) (s : string) : string :=
  match s with
  | EmptyString => EmptyString
  | String c s' => if ascii_eqb c sep then EmptyString else String c (before_first sep s')
  end.

(** ** [shlex.split(s)] (posix mode, [whitespace_split = True], no comments)

    The states of [shlex.read_token]: [' '] between tokens, ['a'] inside a
    word, a quote character inside quotes, and the escape state with the
    state it returns to ([escapedstate]). *)
Inductive lex_state :=
| LWs                      (* ' ' *)
| LWord                    (* 'a' *)
| LQuote (q : ascii)       (* a quote character *)
| LEsc (back : lex_state). (* after a backslash; [back] is escapedstate *)

(** [None] is the [ValueError] ("No closing quotation" or "No escaped
    character"); [tok] is the current token. read_token's [quoted] flag is
    left out: the state ['a'] is only entered with a non-empty token or after
    a quote, so there read_token always returns the token, and in the state
    [' '] the token is always empty and [quoted] false. *)
Fixpoint shlex_run (s : string) (st : lex_state) (tok : string)
  : option (list string) :=
  match s with
  | EmptyString =>
      match st with
      | LWs => Some []
      | LWord => Some [tok]
      | LQuote _ | LEsc _ => None
      end
  | String c s' =>
      match st with
      | LWs =>
          if shlex_isspace c then shlex_run s' LWs EmptyString
          else if ascii_eqb c bs then shlex_run s' (LEsc LWord) EmptyString
          else if ascii_eqb c sq || ascii_eqb c dq then shlex_run s' (LQuote c) EmptyString
          else shlex_run s' LWord (str1 c)
      | LQuote q =>
          if ascii_eqb c q then shlex_run s' LWord tok
          else if ascii_eqb c bs && ascii_eqb q dq then shlex_run s' (LEsc (LQuote q)) tok
          else shlex_run s' (LQuote q) (tok ++ str1 c)
      | LEsc back =>
          let tok' := match back with
                      | LQuote q => if negb (ascii_eqb c bs) && negb (ascii_eqb c q)
                                    then tok ++ str1 bs else tok
                      | _ => tok
                      end in
          shlex_run s' back (tok' ++ str1 c)
      | LWord =>
          if shlex_isspace c then
            option_map (cons tok) (shlex_run s' LWs EmptyString)
          else if ascii_eqb c sq || ascii_eqb c dq then shlex_run s' (LQuote c) tok
          else if ascii_eqb c bs then shlex_run s' (LEsc LWord) tok
          else shlex_run s' LWord (tok ++ str1 c)
      end
  end.

Definition shlex_split (s : string) : option (list string) := shlex_run s LWs EmptyString.

(** ** [split_command_segments] *)

Definition amp : ascii := "&".
Definition bar : ascii := "|".

(** [re.split(r"\s*(?:&&|\|\|)\s*", s)]. [cur] is the text since the end of
    the last match. A match starts at the whitespace run right before the
    operator (the leftmost position that can start one), so that run is cut
    off [cur] by [rstrip]; its trailing [\s*] is consumed while [skip]. *)
Fixpoint split_andor (s : string) (cur : string) (skip : bool) : list string :=
  match s with
  | EmptyString => [cur]
  | String c s' =>
      if skip && py_isspace c then split_andor s' cur true
      else match s' with
           | String c2 s'' =>
               if (ascii_eqb c amp && ascii_eqb c2 amp) || (ascii_eqb c bar && ascii_eqb c2 bar)
               then rstrip cur :: split_andor s'' EmptyString true
               else split_andor s' (cur ++ str1 c) false
           | EmptyString => split_andor s' (cur ++ str1 c) false
           end
  end.

(** [re.split(r";", s)], and in general [s.split(sep)] for one character. *)
Fixpoint split_char (sep : ascii) (s : string) (cur : string) : list string :=
  match s with
  | EmptyString => [cur]
  | String c s' => if ascii_eqb c sep then cur :: split_char sep s' EmptyString
                   else split_char sep s' (cur ++ str1 c)
  end.

Definition nonempty (s : string) : bool := negb (String.eqb s EmptyString).

Definition split_command_segments (command_string : string) : list string :=
  let segments := split_andor command_string EmptyString false in
  flat_map (fun segment => filter nonempty (map strip (split_char ";" segment EmptyString)))
           segments.

(** ** [extract_commands] *)

(** [re.sub(r"\s*X\s*", " ", s)] for one character [X]: [pend] is the
    whitespace run seen since the last non-blank, dropped when [X] follows it;
    after a match the following whitespace is consumed while [skip]. *)
Fixpoint sub_star (x : ascii) (s : string) (pend : string) (skip : bool) : string :=
  match s with
  | EmptyString => pend
  | String c s' =>
      if ascii_eqb c x then " " ++ sub_star x s' EmptyString true
      else if py_isspace c then
        (if skip then sub_star x s' EmptyString true else sub_star x s' (pend ++ str1 c) false)
      else pend ++ String c (sub_star x s' EmptyString false)
  end.

(** [re.sub(r"\s+XX\s+", " ", s)] for one character [X]: a match needs a
    non-empty whitespace run not consumed by the previous match ([pend]),
    then [XX], then at least one whitespace character; it consumes the whole
    whitespace run after [XX]. *)
Fixpoint sub_plus2 (x : ascii) (s : string) (pend : string) (skip : bool) : string :=
  match s with
  | EmptyString => pend
  | String c s' =>
      if py_isspace c then
        (if skip then sub_plus2 x s' EmptyString true else sub_plus2 x s' (pend ++ str1 c) false)
      else match s' with
           | String c2 (String c3 s3) =>
               if nonempty pend && ascii_eqb c x && ascii_eqb c2 x && py_isspace c3
               then " " ++ sub_plus2 x s3 EmptyString true
               else pend ++ String c (sub_plus2 x s' EmptyString false)
           | _ => pend ++ String c (sub_plus2 x s' EmptyString false)
           end
  end.

(** The loop [for sep in [r"\s*;\s*", r"\s+&&\s+", r"\s+\|\|\s+", r"\s*\|\s*"]]. *)
Definition flatten_separators (command_string : string) : string :=
  let s1 := sub_star ";" command_string EmptyString false in
  let s2 := sub_plus2 amp s1 EmptyString false in
  let s3 := sub_plus2 bar s2 EmptyString false in
  sub_star bar s3 EmptyString false.

(** [part and not part.startswith("-") and "=" not in part] *)
Definition keep_token (part : string) : bool :=
  nonempty part && negb (starts_with "-" part) && negb (str_mem "=" part).

(** [cmd = part.split("/")[-1]], then the [.sh] / first-dot rule. *)
Definition normalize (part : string) : string :=
  let cmd := after_last "/" part EmptyString in
  if ends_with ".sh" cmd then cmd
  else if str_mem "." cmd then before_first "." cmd else cmd.

Definition mem (s : string) (l : list string) : bool := existsb (String.eqb s) l.

Fixpoint extract_loop (parts : list string) (commands : list string) : list string :=
  match parts with
  | [] => commands
  | part :: rest =>
      if keep_token part then
        let cmd_to_add := normalize part in
        if nonempty cmd_to_add && negb (mem cmd_to_add commands)
        then extract_loop rest (app commands [cmd_to_add])
        else extract_loop rest commands
      else extract_loop rest commands
  end.

Definition extract_commands (command_string : string) : list string :=
  let commands := extract_loop (py_split (flatten_separators command_string)) [] in
  match commands with
  | [] => ["unknown"]
  | _ => commands
  end.

(** ** Python exceptions that escape the hook *)

(** [target.split()[0]] on a target made of blanks raises [IndexError]; the
    [ValueError] of [shlex.split] is caught by every validator. *)
Inductive py_exn := IndexError.

Inductive py (A : Type) : Type :=
| Ok (a : A)
| Raise (e : py_exn).
Arguments Ok {A} a.
Arguments Raise {A} e.

(** ** [validate_pkill_command] *)

Definition allowed_process_names : list string := ["node"; "npm"; "npx"; "vite"; "next"].

(** [f"pkill only allowed for dev processes: {allowed_process_names}"]; the
    order in which Python prints the set varies between runs, this is one. *)
Definition pkill_reason : string :=
  "pkill only allowed for dev processes: {'node', 'npm', 'npx', 'vite', 'next'}".

Definition starts_with_dash (t : string) : bool := starts_with "-" t.

Definition validate_pkill_command (command_string : string) : py (bool * string) :=
  match shlex_split command_string with
  | None => Ok (false, "Could not parse pkill command")
  | Some [] => Ok (false, "Empty pkill command")
  | Some (_ :: tokens1) =>
      let args := filter (fun t => negb (starts_with_dash t)) tokens1 in
      match rev args with
      | [] => Ok (false, "pkill requires a process name")
      | target0 :: _ =>
          let target :=
            if str_mem " " target0 then
              match py_split target0 with
              | [] => Raise IndexError
              | w :: _ => Ok w
              end
            else Ok target0 in
          match target with
          | Raise e => Raise e
          | Ok target =>
              if mem target allowed_process_names then Ok (true, EmptyString)
              else Ok (false, pkill_reason)
          end
      end
  end.

(** ** [validate_chmod_command] *)

(** [re.match(r"^[ugoa]*\+x$", mode)]: [+] is not in [[ugoa]], so the greedy
    star takes the whole leading run of [u g o a]; Python's [$] matches at the
    end of the string or before a newline that ends it. *)
Fixpoint drop_ugoa (s : string) : string :=
  match s with
  | EmptyString => EmptyString
  | String c s' => if str_mem c "ugoa" then drop_ugoa s' else s
  end.

Definition newline : string := str1 (chr 10).

Definition chmod_mode_ok (mode : string) : bool :=
  let r := drop_ugoa mode in
  String.eqb r "+x" || String.eqb r ("+x" ++ newline).

(** The loop over [tokens[1:]]: [None] is the early return on a flag,
    otherwise the final [mode] and [files]. *)
Fixpoint chmod_scan (tokens : list string) (mode : option string) (files : list string)
  : option (option string * list string) :=
  match tokens with
  | [] => Some (mode, files)
  | token :: rest =>
      if starts_with_dash token then None
      else match mode with
           | None => chmod_scan rest (Some token) files
           | Some _ => chmod_scan rest mode (app files [token])
           end
  end.

Definition validate_chmod_command (command_string : string) : bool * string :=
  match shlex_split command_string with
  | None => (false, "Could not parse chmod command")
  | Some tokens =>
      match tokens with
      | [] => (false, "Not a chmod command")
      | t0 :: tokens1 =>
          if negb (String.eqb t0 "chmod") then (false, "Not a chmod command")
          else match chmod_scan tokens1 None [] with
               | None => (false, "chmod flags are not allowed")
               | Some (None, _) => (false, "chmod requires a mode")
               | Some (Some _, []) => (false, "chmod requires at least one file")
               | Some (Some mode, _ :: _) =>
                   if negb (chmod_mode_ok mode)
                   then (false, "chmod only allowed with +x mode, got: " ++ mode)
                   else (true, EmptyString)
               end
      end
  end.

(** ** [validate_init_script] *)

Definition validate_init_script (command_string : string) : bool * string :=
  match shlex_split command_string with
  | None => (false, "Could not parse init script command")
  | Some [] => (false, "Empty command")
  | Some (script :: _) =>
      if String.eqb script "./init.sh" || ends_with "/init.sh" script then (true, EmptyString)
      else (false, "Only ./init.sh is allowed, got: " ++ script)
  end.

(** ** [get_command_for_validation] and [bash_security_hook] *)

Fixpoint get_command_for_validation (cmd : string) (segments : list string) : string :=
  match segments with
  | [] => EmptyString
  | segment :: rest =>
      if mem cmd (extract_commands segment) then segment
      else get_command_for_validation cmd rest
  end.

Definition ALLOWED_COMMANDS : list string :=
  ["ls"; "cat"; "head"; "tail"; "wc"; "grep";
   "cp"; "mkdir"; "chmod";
   "pwd";
   "npm"; "node";
   "git";
   "ps"; "lsof"; "sleep"; "pkill";
   "init.sh"].

Definition COMMANDS_NEEDING_EXTRA_VALIDATION : list string := ["pkill"; "chmod"; "init.sh"].

(** The hook's result: [{}] or [{"decision": "block", "reason": r}]. *)
Inductive decision :=
| Allow
| Block (reason : string).

Definition not_allowed_reason (cmd : string) : string :=
  "Command '" ++ cmd ++ "' is not in the allowed commands list".

Definition parse_failure_reason (command : string) : string :=
  "Could not parse command for security validation: " ++ command.

(** The dispatch on [cmd] inside the loop. *)
Definition run_validator (cmd cmd_segment : string) : py (bool * string) :=
  if String.eqb cmd "pkill" then validate_pkill_command cmd_segment
  else if String.eqb cmd "chmod" then Ok (validate_chmod_command cmd_segment)
  else if String.eqb cmd "init.sh" then Ok (validate_init_script cmd_segment)
  else Ok (true, EmptyString).

(** [get_command_for_validation(cmd, segments) or command] *)
Definition segment_for (command cmd : string) (segments : list string) : string :=
  let g := get_command_for_validation cmd segments in
  if nonempty g then g else command.

(** The loop [for cmd in commands]. *)
Fixpoint check_commands (command : string) (segments : list string) (commands : list string)
  : py decision :=
  match commands with
  | [] => Ok Allow
  | cmd :: rest =>
      if negb (mem cmd ALLOWED_COMMANDS) then Ok (Block (not_allowed_reason cmd))
      else if mem cmd COMMANDS_NEEDING_EXTRA_VALIDATION then
        match run_validator cmd (segment_for command cmd segments) with
        | Raise e => Raise e
        | Ok (true, _) => check_commands command segments rest
        | Ok (false, reason) => Ok (Block reason)
        end
      else check_commands command segments rest
  end.

(** [input_data] is reduced to its two fields the hook reads:
    [input_data["tool_name"]] and [input_data["tool_input"]["command"]]
    (the default [""] when absent). *)
Definition bash_security_hook (tool_name command : string) : py decision :=
  if negb (String.eqb tool_name "Bash") then Ok Allow
  else if negb (nonempty command) then Ok Allow
  else
    let commands := extract_commands command in
    match commands with
    | [] => Ok (Block (parse_failure_reason command))
    | _ =>
        let segments := split_command_segments command in
        check_commands command segments commands
    end.

(** The Gate on a Bash command string. *)
Definition gate (command : string) : py decision := bash_security_hook "Bash" command.

(** * Reference definitions for the proofs *)

(** A name passes its step of the hook loop: allowlisted, and when
    extra-validated its validator allows. *)
Definition passes (command : string) (segments : list string) (cmd : string) : Prop :=
  mem cmd ALLOWED_COMMANDS = true /\
  (mem cmd COMMANDS_NEEDING_EXTRA_VALIDATION = true ->
   exists r, run_validator cmd (segment_for command cmd segments) = Ok (true, r)).

(** ** The extractor against its description *)

(** Modelled on the spec's words (section 4.2): skip a token that begins with
    [-] or contains [=]; keep the text after the last [/]; keep a name ending
    in [.sh] whole, otherwise cut it at its first [.]; drop empty names and
    later duplicates. *)
Definition skip_token_spec (t : string) : bool := starts_with "-" t || str_mem "=" t.

Definition normalize_spec (t : string) : string :=
  let base := after_last "/" t EmptyString in
  if ends_with ".sh" base then base else before_first "." base.

(** First occurrences, in order. *)
Fixpoint dedup_first (l : list string) : list string :=
  match l with
  | [] => []
  | x :: r => x :: filter (fun y => negb (String.eqb x y)) (dedup_first r)
  end.

Definition extract_commands_spec (command_string : string) : list string :=
  let tokens := py_split (flatten_separators command_string) in
  let names := filter nonempty (map normalize_spec (filter (fun t => negb (skip_token_spec t)) tokens)) in
  match dedup_first names with
  | [] => ["unknown"]
  | l => l
  end.

(** The names the loop considers, before deduplication. *)
Definition kept_names (parts : list string) : list string :=
  filter nonempty (map normalize (filter keep_token parts)).

Definition remove_all (acc l : list string) : list string :=
  filter (fun y => negb (mem y acc)) l.

(** ** The segmenter *)

(** A separator of the segmenter occurs in [s]: [;], [&&] or [||]. *)
Fixpoint has_separator (s : string) : bool :=
  match s with
  | EmptyString => false
  | String c s' =>
      ascii_eqb c ";" ||
      match s' with
      | String c2 _ => (ascii_eqb c amp && ascii_eqb c2 amp) || (ascii_eqb c bar && ascii_eqb c2 bar)
      | EmptyString => false
      end ||
      has_separator s'
  end.

(** An operator of the first pass: [&&] or [||]. *)
Definition is_op (c c2 : ascii) : bool :=
  (ascii_eqb c amp && ascii_eqb c2 amp) || (ascii_eqb c bar && ascii_eqb c2 bar).

(** Modelled on the spec's words (section 4.1): every occurrence of [;],
    [&&] or [||], found left to right, is a segment boundary ([None]); each
    candidate segment is trimmed and the empty ones are dropped. *)
Fixpoint separator_events (s : string) : list (option ascii) :=
  match s with
  | EmptyString => []
  | String c s' =>
      if ascii_eqb c ";" then None :: separator_events s'
      else match s' with
           | String c2 s'' => if is_op c c2 then None :: separator_events s''
                              else Some c :: separator_events s'
           | EmptyString => [Some c]
           end
  end.

Fixpoint split_at_cuts (e : list (option ascii)) (cur : string) : list string :=
  match e with
  | [] => [cur]
  | None :: e' => cur :: split_at_cuts e' EmptyString
  | Some c :: e' => split_at_cuts e' (cur ++ str1 c)
  end.

Definition split_command_segments_spec (s : string) : list string :=
  filter nonempty (map strip (split_at_cuts (separator_events s) EmptyString)).

(** The boundaries of the first pass alone ([&&] and [||]). *)
Fixpoint andor_events (s : string) : list (option ascii) :=
  match s with
  | EmptyString => []
  | String c s' =>
      match s' with
      | String c2 s'' => if is_op c c2 then None :: andor_events s''
                         else Some c :: andor_events s'
      | EmptyString => [Some c]
      end
  end.

Fixpoint char_events (s : string) : list (option ascii) :=
  match s with
  | EmptyString => []
  | String c s' => Some c :: char_events s'
  end.

(** The second pass's boundary: [;] becomes a cut. *)
Definition semi (e : option ascii) : option ascii :=
  match e with
  | Some c => if ascii_eqb c ";" then None else Some c
  | None => None
  end.

Fixpoint all_space (s : string) : bool :=
  match s with
  | EmptyString => true
  | String c s' => py_isspace c && all_space s'
  end.

(** The per-piece step of [split_command_segments], with [split_char]'s
    accumulator made explicit. *)
Definition piece_segments (acc p : string) : list string :=
  filter nonempty (map strip (split_char ";" p acc)).

(** The last character of a string. *)
Fixpoint last_char (s : string) : option ascii :=
  match s with
  | EmptyString => None
  | String c EmptyString => Some c
  | String _ s' => last_char s'
  end.

(** A segment being built next to the rest of the input: its last character
    and the next input character (unless it is [;]) are no [&&] or [||]. *)
Definition cut_boundary_ok (cur s : string) : Prop :=
  match last_char cur, s with
  | Some d, String c _ => ascii_eqb c ";" = false -> is_op d c = false
  | _, _ => True
  end.

(** * Properties *)

#[local] Arguments mem : simpl never.

(** ** Lemmas on the helpers *)


Lemma mem_app (s : string) (l1 l2 : list string) : mem s (app l1 l2) = mem s l1 || mem s l2.
Proof. unfold mem. apply existsb_app. Qed.

Lemma extract_commands_not_nil (s : string) : extract_commands s <> [].
Proof. unfold extract_commands. destruct (extract_loop _ _); discriminate. Qed.

Lemma gate_unfold (command : string) :
  nonempty command = true ->
  gate command = check_commands command (split_command_segments command) (extract_commands command).
Proof.
  intros Hne. unfold gate, bash_security_hook. simpl. rewrite Hne. simpl.
  destruct (extract_commands command) eqn:E.
  - exfalso. exact (extract_commands_not_nil _ E).
  - reflexivity.
Qed.

(** ** The hook loop *)

Section Loop.
Variable command : string.
Variable segments : list string.


Lemma check_commands_first_unlisted (pre post : list string) (n : string) :
  Forall (passes command segments) pre -> mem n ALLOWED_COMMANDS = false ->
  check_commands command segments (app pre (n :: post)) = Ok (Block (not_allowed_reason n)).
Proof.
  intros Hpre Hn. induction Hpre as [|c pre [Hc Hx] Hpre IH]; simpl.
  - rewrite Hn. reflexivity.
  - rewrite Hc. simpl.
    destruct (mem c COMMANDS_NEEDING_EXTRA_VALIDATION).
    + destruct (Hx eq_refl) as [r ->]. exact IH.
    + exact IH.
Qed.



Lemma check_commands_plain (cmds : list string) :
  Forall (fun n => mem n ALLOWED_COMMANDS = true /\ mem n COMMANDS_NEEDING_EXTRA_VALIDATION = false) cmds ->
  check_commands command segments cmds = Ok Allow.
Proof.
  induction 1 as [|c rest [Ha Hx] _ IH]; simpl; [reflexivity|].
  rewrite Ha, Hx. exact IH.
Qed.
End Loop.

Lemma check_commands_raise (command : string) (segments cmds : list string) (e : py_exn) :
  check_commands command segments cmds = Raise e ->
  exists n, In n cmds /\ run_validator n (segment_for command n segments) = Raise e.
Proof.
  induction cmds as [|c rest IH]; simpl; [discriminate|].
  destruct (mem c ALLOWED_COMMANDS); simpl; [|discriminate].
  destruct (mem c COMMANDS_NEEDING_EXTRA_VALIDATION).
  - destruct (run_validator c _) as [[[|] r]|e'] eqn:Ev; intros H.
    + destruct (IH H) as [n [Hn Hr]]. exists n. split; [right; exact Hn | exact Hr].
    + discriminate.
    + destruct e, e'. exists c. split; [left; reflexivity | exact Ev].
  - intros H. destruct (IH H) as [n [Hn Hr]]. exists n. split; [right; exact Hn | exact Hr].
Qed.

Lemma run_validator_raise (n seg : string) (e : py_exn) :
  run_validator n seg = Raise e -> n = "pkill" /\ validate_pkill_command seg = Raise e.
Proof.
  unfold run_validator.
  destruct (String.eqb n "pkill") eqn:E1.
  - apply String.eqb_eq in E1. intros H. split; assumption.
  - destruct (String.eqb n "chmod"); [discriminate|].
    destruct (String.eqb n "init.sh"); discriminate.
Qed.

(** ** The extractor's loop *)




(** * Claims *)




(** ** C2
    When the extractor yields only its sentinel ["unknown"], the Gate blocks,
    but through the allowlist check: the reason is the not-in-allowlist
    message for [unknown], never the parse-failure message, whose branch
    (an empty extractor result) cannot be reached. *)
Theorem gate_unknown_sentinel_reason (command : string) :
  nonempty command = true -> extract_commands command = ["unknown"] ->
  gate command = Ok (Block (not_allowed_reason "unknown")) /\
  not_allowed_reason "unknown" <> parse_failure_reason command.
Proof.
  intros Hne He. split.
  - rewrite (gate_unfold _ Hne), He.
    exact (check_commands_first_unlisted command _ [] [] "unknown" (Forall_nil _) eq_refl).
  - unfold not_allowed_reason, parse_failure_reason. simpl. discriminate.
Qed.

Lemma gate_unknown_sentinel_reason_witness :
  gate "--flag" = Ok (Block (not_allowed_reason "unknown")) /\
  not_allowed_reason "unknown" <> parse_failure_reason "--flag".
Proof. apply gate_unknown_sentinel_reason; vm_compute; reflexivity. Defined.

(** ** C3
    A command string whose extracted names are all allowlisted and none of
    them extra-validated is allowed. *)
Theorem gate_allows_plain (command : string) :
  Forall (fun n => mem n ALLOWED_COMMANDS = true /\
                   mem n COMMANDS_NEEDING_EXTRA_VALIDATION = false)
         (extract_commands command) ->
  gate command = Ok Allow.
Proof.
  intros H. destruct (nonempty command) eqn:Hne.
  - rewrite (gate_unfold _ Hne). apply check_commands_plain. exact H.
  - unfold gate, bash_security_hook. simpl. rewrite Hne. reflexivity.
Qed.

Lemma gate_allows_plain_witness : gate "ls -la && pwd" = Ok Allow.
Proof.
  apply gate_allows_plain. vm_compute.
  repeat constructor.
Defined.




(** ** C4
    On a segment that tokenizes into a non-empty token list, the
    script-execution validator allows exactly when the first token is
    [./init.sh] or ends with [/init.sh], and denies with a non-empty reason
    otherwise. *)
Theorem init_script_validator (segment script : string) (rest : list string) :
  shlex_split segment = Some (script :: rest) ->
  (fst (validate_init_script segment) = true <->
   script = "./init.sh" \/ ends_with "/init.sh" script = true) /\
  (fst (validate_init_script segment) = false -> snd (validate_init_script segment) <> EmptyString).
Proof.
  intros Hs. unfold validate_init_script. rewrite Hs.
  destruct (String.eqb script "./init.sh") eqn:E1; simpl.
  - apply String.eqb_eq in E1. split; [split; [intros _; left; exact E1 | reflexivity] | discriminate].
  - destruct (ends_with "/init.sh" script) eqn:E2; simpl.
    + split; [split; [intros _; right; reflexivity | reflexivity] | discriminate].
    + split.
      * split; [discriminate|].
        intros [H | H]; [apply String.eqb_neq in E1; contradiction | discriminate].
      * intros _. discriminate.
Qed.

Lemma init_script_validator_witness :
  fst (validate_init_script "./init.sh") = true /\
  fst (validate_init_script "sh init.sh") = false /\
  snd (validate_init_script "sh init.sh") <> EmptyString.
Proof.
  split.
  - apply (init_script_validator "./init.sh" "./init.sh" []); [reflexivity | left; reflexivity].
  - assert (Hsh : fst (validate_init_script "sh init.sh") = false).
    { destruct (fst (validate_init_script "sh init.sh")) eqn:E; [|reflexivity].
      apply (init_script_validator "sh init.sh" "sh" ["init.sh"]) in E; [|reflexivity].
      destruct E as [E | E]; discriminate. }
    split; [exact Hsh|].
    exact (proj2 (init_script_validator "sh init.sh" "sh" ["init.sh"] eq_refl) Hsh).
Defined.

(** ** C5
    The mode pattern is checked with [re.match] and [$], which also matches
    before a final newline: a mode token [+x] followed by a newline passes. *)
Theorem chmod_mode_trailing_newline :
  shlex_split ("chmod '+x" ++ newline ++ "' f") = Some ["chmod"; "+x" ++ newline; "f"] /\
  chmod_mode_ok ("+x" ++ newline) = true /\
  validate_chmod_command ("chmod '+x" ++ newline ++ "' f") = (true, EmptyString).
Proof. split; [|split]; vm_compute; reflexivity. Qed.

(** ** C6
    The process-termination validator never looks at its first token, and it
    tests the target for a space only: a target made of spaces makes
    [target.split()[0]] raise, and a tab-separated target is compared whole. *)
Theorem pkill_validator_slips :
  validate_pkill_command "ls pkill node" = Ok (true, EmptyString) /\
  gate "ls pkill node" = Ok Allow /\
  validate_pkill_command "kill node" = Ok (true, EmptyString) /\
  validate_pkill_command "pkill ' '" = Raise IndexError /\
  gate "pkill ' ' ; rm x" = Raise IndexError /\
  validate_pkill_command ("pkill 'node" ++ str1 (chr 9) ++ "x'") = Ok (false, pkill_reason) /\
  validate_pkill_command "pkill node" = Ok (true, EmptyString) /\
  validate_pkill_command "pkill -9 sshd" = Ok (false, pkill_reason).
Proof. repeat split; vm_compute; reflexivity. Qed.

(** ** C7
    The [&&] separator is only replaced when whitespace surrounds it. *)
Theorem extract_andand_needs_spaces :
  extract_commands "a&&b" = ["a&&b"] /\ extract_commands "a && b" = ["a"; "b"].
Proof. split; vm_compute; reflexivity. Qed.

Lemma before_first_absent (c : ascii) (s : string) :
  str_mem c s = false -> before_first c s = s.
Proof.
  induction s as [|d s IH]; simpl; [reflexivity|].
  intros H. apply orb_false_iff in H as [H1 H2].
  unfold ascii_eqb in *. destruct (ascii_dec d c) as [->|_].
  - destruct (ascii_dec c c); [discriminate | contradiction].
  - rewrite IH; [reflexivity | exact H2].
Qed.

Lemma normalize_spec_eq (t : string) : normalize t = normalize_spec t.
Proof.
  unfold normalize, normalize_spec.
  destruct (ends_with _ _); [reflexivity|].
  destruct (str_mem "." _) eqn:E; [reflexivity|].
  symmetry. apply before_first_absent. exact E.
Qed.

Lemma filter_filter_str (f g : string -> bool) (l : list string) :
  filter f (filter g l) = filter (fun x => g x && f x) l.
Proof.
  induction l as [|x l IH]; simpl; [reflexivity|].
  destruct (g x) eqn:Eg; destruct (f x) eqn:Ef; simpl; try rewrite Ef; rewrite IH; reflexivity.
Qed.

Lemma filter_true_str (f : string -> bool) (l : list string) :
  (forall x, f x = true) -> filter f l = l.
Proof.
  intros H. induction l as [|x l IH]; simpl; [reflexivity|]. rewrite H, IH. reflexivity.
Qed.

Lemma extract_loop_dedup (parts acc : list string) :
  extract_loop parts acc = app acc (remove_all acc (dedup_first (kept_names parts))).
Proof.
  revert acc. induction parts as [|p rest IH]; intros acc; simpl.
  - unfold remove_all. simpl. rewrite app_nil_r. reflexivity.
  - unfold kept_names. simpl.
    destruct (keep_token p); [|apply IH]. simpl.
    destruct (nonempty (normalize p)) eqn:Hn; simpl; [|apply IH].
    fold (kept_names rest). set (D := dedup_first (kept_names rest)).
    set (n := normalize p).
    unfold remove_all. simpl.
    destruct (mem n acc) eqn:Hm; simpl.
    + rewrite IH. f_equal. unfold remove_all. rewrite filter_filter_str.
      apply filter_ext. intros y.
      destruct (String.eqb n y) eqn:Ey; simpl; [|reflexivity].
      apply String.eqb_eq in Ey. subst y. rewrite Hm. reflexivity.
    + rewrite IH, <- app_assoc. simpl. f_equal. f_equal.
      unfold remove_all. rewrite filter_filter_str.
      apply filter_ext. intros y. rewrite mem_app.
      unfold mem at 2. simpl. rewrite (String.eqb_sym y n).
      destruct (String.eqb n y), (mem y acc); reflexivity.
Qed.

Lemma kept_names_spec (parts : list string) :
  filter nonempty (map normalize_spec (filter (fun t => negb (skip_token_spec t)) parts)) =
  kept_names parts.
Proof.
  unfold kept_names. induction parts as [|p rest IH]; [reflexivity|].
  destruct p as [|c p'].
  - cbn [filter map]. change (keep_token EmptyString) with false.
    change (negb (skip_token_spec EmptyString)) with true.
    cbn [filter map]. change (nonempty (normalize_spec EmptyString)) with false.
    exact IH.
  - assert (Hk : keep_token (String c p') = negb (skip_token_spec (String c p'))).
    { unfold keep_token, skip_token_spec. rewrite negb_orb. reflexivity. }
    cbn [filter map]. rewrite Hk.
    destruct (negb (skip_token_spec _)); cbn [filter map];
      [rewrite normalize_spec_eq, IH | exact IH]; reflexivity.
Qed.

Lemma dedup_first_NoDup (l : list string) : NoDup (dedup_first l).
Proof.
  induction l as [|x r IH]; simpl; constructor.
  - intros Hin. apply filter_In in Hin as [_ H]. rewrite String.eqb_refl in H. discriminate.
  - apply NoDup_filter. exact IH.
Qed.

(** ** C8
    The extractor equals its description: tokens starting with [-] or holding
    [=] skipped, path stripped, [.sh] names kept whole, others cut at the
    first dot, duplicate-free in first-occurrence order; and
    [./init.sh --flag foo=bar] yields exactly [init.sh]. *)
Theorem extract_commands_as_described :
  (forall s, extract_commands s = extract_commands_spec s /\ NoDup (extract_commands s)) /\
  extract_commands "./init.sh --flag foo=bar" = ["init.sh"].
Proof.
  split; [|vm_compute; reflexivity].
  intros s.
  assert (E : extract_commands s = extract_commands_spec s).
  { unfold extract_commands, extract_commands_spec.
    rewrite extract_loop_dedup, kept_names_spec. simpl.
    unfold remove_all. rewrite filter_true_str by reflexivity.
    destruct (dedup_first _); reflexivity. }
  split; [exact E|]. rewrite E. unfold extract_commands_spec.
  pose proof (dedup_first_NoDup (filter nonempty (map normalize_spec
               (filter (fun t => negb (skip_token_spec t)) (py_split (flatten_separators s)))))) as H.
  destruct (dedup_first _); [repeat constructor; simpl; tauto | exact H].
Qed.

Lemma ascii_eqb_sym_false (a b : ascii) : ascii_eqb a b = false -> ascii_eqb b a = false.
Proof.
  unfold ascii_eqb. destruct (ascii_dec a b), (ascii_dec b a); congruence.
Qed.

Lemma no_separator_no_semicolon (s : string) : has_separator s = false -> str_mem ";" s = false.
Proof.
  induction s as [|c s IH]; simpl; [reflexivity|].
  intros H. apply orb_false_iff in H as [H1 H3]. apply orb_false_iff in H1 as [H1 _].
  rewrite (ascii_eqb_sym_false _ _ H1), (IH H3). reflexivity.
Qed.

Lemma str_app_assoc (a b c : string) : ((a ++ b) ++ c = a ++ (b ++ c))%string.
Proof. induction a as [|x a IH]; simpl; [reflexivity | rewrite IH; reflexivity]. Qed.

Lemma str_app_nil (a : string) : (a ++ EmptyString)%string = a.
Proof. induction a as [|x a IH]; simpl; [reflexivity | rewrite IH; reflexivity]. Qed.

Lemma rev_str_acc (s acc : string) : rev_str s acc = (rev_str s EmptyString ++ acc)%string.
Proof.
  revert acc. induction s as [|c s IH]; intros acc; simpl; [reflexivity|].
  rewrite (IH (String c acc)), (IH (String c EmptyString)), str_app_assoc. reflexivity.
Qed.

Lemma rev_str_app (a b : string) :
  rev_str (a ++ b) EmptyString = (rev_str b EmptyString ++ rev_str a EmptyString)%string.
Proof.
  induction a as [|c a IH]; simpl.
  - rewrite str_app_nil. reflexivity.
  - rewrite (rev_str_acc (a ++ b)), (rev_str_acc a), IH, str_app_assoc. reflexivity.
Qed.

Lemma rev_str_involutive (s : string) : rev_str (rev_str s EmptyString) EmptyString = s.
Proof.
  induction s as [|c s IH]; simpl; [reflexivity|].
  rewrite (rev_str_acc s (String c EmptyString)), rev_str_app, IH. reflexivity.
Qed.

Lemma lstrip_idem (s : string) : lstrip (lstrip s) = lstrip s.
Proof.
  induction s as [|c s IH]; simpl; [reflexivity|].
  destruct (py_isspace c) eqn:E; [exact IH | simpl; rewrite E; reflexivity].
Qed.

Lemma lstrip_head (s : string) :
  lstrip s = EmptyString \/ exists c t, lstrip s = String c t /\ py_isspace c = false.
Proof.
  induction s as [|c s IH]; simpl; [left; reflexivity|].
  destruct (py_isspace c) eqn:E; [exact IH | right; exists c, s; split; [reflexivity | exact E]].
Qed.

Lemma lstrip_app_nonspace (a b : string) (c : ascii) :
  py_isspace c = false -> lstrip (a ++ String c b) = (lstrip a ++ String c b)%string.
Proof.
  intros Hc. induction a as [|d a IH]; simpl; [rewrite Hc; reflexivity|].
  destruct (py_isspace d); [exact IH | reflexivity].
Qed.

Lemma rstrip_cons_nonspace (c : ascii) (s : string) :
  py_isspace c = false -> rstrip (String c s) = String c (rstrip s).
Proof.
  intros Hc. unfold rstrip. simpl.
  rewrite (rev_str_acc s (String c EmptyString)), lstrip_app_nonspace by exact Hc.
  rewrite rev_str_app. reflexivity.
Qed.

Lemma rstrip_idem (s : string) : rstrip (rstrip s) = rstrip s.
Proof. unfold rstrip. rewrite rev_str_involutive, lstrip_idem. reflexivity. Qed.

Lemma strip_idem (s : string) : strip (strip s) = strip s.
Proof.
  unfold strip.
  assert (H : lstrip (rstrip (lstrip s)) = rstrip (lstrip s)).
  { destruct (lstrip_head s) as [-> | [c [t [-> Hc]]]]; [reflexivity|].
    rewrite rstrip_cons_nonspace by exact Hc. simpl. rewrite Hc. reflexivity. }
  rewrite H. apply rstrip_idem.
Qed.

Lemma split_andor_no_separator (s cur : string) :
  has_separator s = false -> split_andor s cur false = [(cur ++ s)%string].
Proof.
  revert cur. induction s as [|c s IH]; intros cur H; simpl.
  - rewrite str_app_nil. reflexivity.
  - simpl in H. apply orb_false_iff in H as [H1 H3]. apply orb_false_iff in H1 as [_ H2].
    destruct s as [|c2 s'].
    + simpl. reflexivity.
    + rewrite H2. rewrite (IH _ H3), str_app_assoc. reflexivity.
Qed.

Lemma split_char_absent (sep : ascii) (s cur : string) :
  str_mem sep s = false -> split_char sep s cur = [(cur ++ s)%string].
Proof.
  revert cur. induction s as [|c s IH]; intros cur H; simpl.
  - rewrite str_app_nil. reflexivity.
  - simpl in H. apply orb_false_iff in H as [H1 H2].
    rewrite ascii_eqb_sym_false by exact H1.
    rewrite (IH _ H2), str_app_assoc. reflexivity.
Qed.

Lemma nonempty_false (s : string) : nonempty s = false -> s = EmptyString.
Proof. destruct s; [reflexivity | discriminate]. Qed.

Lemma lstrip_app (x z : string) :
  lstrip (x ++ z) = if nonempty (lstrip x) then (lstrip x ++ z)%string else lstrip z.
Proof.
  induction x as [|c x IH]; simpl; [reflexivity|].
  destruct (py_isspace c) eqn:E; [exact IH | reflexivity].
Qed.

Lemma rev_str_nonempty (s : string) : nonempty (rev_str s EmptyString) = nonempty s.
Proof.
  destruct s as [|c s]; [reflexivity|]. simpl.
  rewrite rev_str_acc. destruct (rev_str s EmptyString); reflexivity.
Qed.

Lemma rstrip_cons (c : ascii) (s : string) :
  rstrip (String c s) =
  if py_isspace c && negb (nonempty (rstrip s)) then EmptyString else String c (rstrip s).
Proof.
  unfold rstrip at 1. simpl. rewrite (rev_str_acc s (String c EmptyString)), lstrip_app.
  unfold rstrip. rewrite rev_str_nonempty.
  destruct (nonempty (lstrip (rev_str s EmptyString))) eqn:E; simpl.
  - rewrite rev_str_app. rewrite andb_false_r. reflexivity.
  - apply nonempty_false in E. rewrite E. simpl.
    destruct (py_isspace c); reflexivity.
Qed.

Lemma all_space_rstrip (w : string) : all_space w = true -> rstrip w = EmptyString.
Proof.
  induction w as [|c w IH]; simpl; [reflexivity|].
  intros H. apply andb_true_iff in H as [H1 H2].
  rewrite rstrip_cons, H1, (IH H2). reflexivity.
Qed.

Lemma all_space_lstrip (w : string) : all_space w = true -> lstrip w = EmptyString.
Proof.
  induction w as [|c w IH]; simpl; [reflexivity|].
  intros H. apply andb_true_iff in H as [H1 H2]. rewrite H1. exact (IH H2).
Qed.

Lemma rstrip_app_space (z w : string) : all_space w = true -> rstrip (z ++ w) = rstrip z.
Proof.
  intros Hw. induction z as [|c z IH]; simpl.
  - exact (all_space_rstrip w Hw).
  - rewrite !rstrip_cons, IH. reflexivity.
Qed.

Lemma strip_app_space (y w : string) : all_space w = true -> strip (y ++ w) = strip y.
Proof.
  intros Hw. unfold strip. rewrite lstrip_app.
  destruct (nonempty (lstrip y)) eqn:E.
  - apply rstrip_app_space. exact Hw.
  - apply nonempty_false in E. rewrite E, (all_space_lstrip w Hw). reflexivity.
Qed.

Lemma strip_space_app (w a : string) : all_space w = true -> strip (w ++ a) = strip a.
Proof.
  intros Hw. unfold strip. rewrite lstrip_app, (all_space_lstrip w Hw). reflexivity.
Qed.

Lemma lstrip_decomp (x : string) : exists w, all_space w = true /\ x = (w ++ lstrip x)%string.
Proof.
  induction x as [|c x IH]; simpl; [exists EmptyString; split; reflexivity|].
  destruct (py_isspace c) eqn:E.
  - destruct IH as [w [Hw Hx]]. exists (String c w). simpl. rewrite E, Hw.
    split; [reflexivity | rewrite <- Hx; reflexivity].
  - exists EmptyString. split; reflexivity.
Qed.

Lemma rstrip_decomp (x : string) : exists w, all_space w = true /\ x = (rstrip x ++ w)%string.
Proof.
  induction x as [|c x IH]; [exists EmptyString; split; reflexivity|].
  destruct IH as [w [Hw Hx]]. rewrite rstrip_cons.
  destruct (py_isspace c && negb (nonempty (rstrip x))) eqn:E.
  - apply andb_true_iff in E as [E1 E2]. apply negb_true_iff, nonempty_false in E2.
    exists (String c w). simpl. rewrite E1, Hw. split; [reflexivity|].
    rewrite Hx at 1. rewrite E2. reflexivity.
  - exists w. split; [exact Hw|]. simpl. rewrite <- Hx. reflexivity.
Qed.

Lemma all_space_no_semicolon (w : string) : all_space w = true -> str_mem ";" w = false.
Proof.
  induction w as [|c w IH]; simpl; [reflexivity|].
  intros H. apply andb_true_iff in H as [H1 H2]. rewrite (IH H2), orb_false_r.
  unfold ascii_eqb. destruct (ascii_dec ";" c) as [<-|]; [discriminate | reflexivity].
Qed.

Lemma split_char_app_prefix (sep : ascii) (w y acc : string) :
  str_mem sep w = false -> split_char sep (w ++ y) acc = split_char sep y (acc ++ w).
Proof.
  revert acc. induction w as [|c w IH]; intros acc H; simpl.
  - rewrite str_app_nil. reflexivity.
  - simpl in H. apply orb_false_iff in H as [H1 H2].
    rewrite ascii_eqb_sym_false by exact H1.
    rewrite (IH _ H2), str_app_assoc. reflexivity.
Qed.

Lemma piece_segments_space_acc (w : string) :
  all_space w = true -> forall y a, piece_segments (w ++ a) y = piece_segments a y.
Proof.
  intros Hw y. unfold piece_segments. induction y as [|c y IH]; intros a; simpl.
  - rewrite (strip_space_app w a Hw). reflexivity.
  - destruct (ascii_eqb c ";"); simpl.
    + rewrite (strip_space_app w a Hw). reflexivity.
    + rewrite str_app_assoc. apply IH.
Qed.

Lemma piece_segments_app_space (w : string) :
  all_space w = true -> forall x acc, piece_segments acc (x ++ w) = piece_segments acc x.
Proof.
  intros Hw x. unfold piece_segments. induction x as [|c x IH]; intros acc; simpl.
  - rewrite split_char_absent by (apply all_space_no_semicolon; exact Hw). simpl.
    rewrite (strip_app_space acc w Hw). reflexivity.
  - destruct (ascii_eqb c ";"); simpl; [rewrite IH; reflexivity | apply IH].
Qed.

Lemma piece_segments_lstrip (x : string) :
  piece_segments EmptyString x = piece_segments EmptyString (lstrip x).
Proof.
  destruct (lstrip_decomp x) as [w [Hw Hx]].
  rewrite Hx at 1. unfold piece_segments at 1.
  rewrite split_char_app_prefix by (apply all_space_no_semicolon; exact Hw).
  simpl. rewrite <- (str_app_nil w).
  exact (piece_segments_space_acc w Hw (lstrip x) EmptyString).
Qed.

Lemma piece_segments_rstrip (x : string) :
  piece_segments EmptyString (rstrip x) = piece_segments EmptyString x.
Proof.
  destruct (rstrip_decomp x) as [w [Hw Hx]].
  rewrite Hx at 2. symmetry. apply piece_segments_app_space. exact Hw.
Qed.

Lemma piece_segments_lstrip_eq (x y : string) :
  lstrip x = lstrip y -> piece_segments EmptyString x = piece_segments EmptyString y.
Proof.
  intros H. rewrite piece_segments_lstrip, H, <- piece_segments_lstrip. reflexivity.
Qed.

Lemma lstrip_eq_app (x y z : string) :
  lstrip x = lstrip y -> lstrip (x ++ z) = lstrip (y ++ z).
Proof. intros H. rewrite !lstrip_app, H. reflexivity. Qed.

Lemma string_ind2 (P : string -> Prop) :
  P EmptyString -> (forall c, P (String c EmptyString)) ->
  (forall c c2 s, P s -> P (String c2 s) -> P (String c (String c2 s))) ->
  forall s, P s.
Proof.
  intros H0 H1 H2.
  assert (H : forall s, P s /\ forall c, P (String c s)).
  { induction s as [|c2 s [IH1 IH2]]; [split; [exact H0 | exact H1]|].
    split; [apply IH2 | intros c; apply H2; [exact IH1 | apply IH2]]. }
  intros s. apply H.
Qed.

Lemma space_not_op (c c2 : ascii) : py_isspace c = true -> is_op c c2 = false.
Proof.
  intros H. unfold is_op, ascii_eqb.
  destruct (ascii_dec c amp) as [->|]; [discriminate|].
  destruct (ascii_dec c bar) as [->|]; [discriminate | reflexivity].
Qed.

Lemma semicolon_not_op (c c2 : ascii) : ascii_eqb c ";" = true -> is_op c c2 = false.
Proof.
  unfold ascii_eqb. destruct (ascii_dec c ";") as [->|]; [intros _; reflexivity | discriminate].
Qed.

Lemma split_andor_events (s : string) : forall cur cur' skip,
  (skip = true -> cur = EmptyString) -> lstrip cur = lstrip cur' ->
  Forall2 (fun p q => piece_segments EmptyString p = piece_segments EmptyString q)
          (split_andor s cur skip) (split_at_cuts (andor_events s) cur').
Proof.
  induction s as [|c|c c2 s IH1 IH2] using string_ind2; intros cur cur' skip Hskip Hl.
  - simpl. constructor; [apply piece_segments_lstrip_eq; exact Hl | constructor].
  - simpl. destruct (skip && py_isspace c) eqn:E.
    + apply andb_true_iff in E as [E1 E2]. rewrite (Hskip E1).
      constructor; [|constructor]. apply piece_segments_lstrip_eq.
      rewrite (Hskip E1) in Hl. simpl in Hl |- *. rewrite lstrip_app, <- Hl. simpl. rewrite E2. reflexivity.
    + constructor; [|constructor]. apply piece_segments_lstrip_eq, lstrip_eq_app. exact Hl.
  - cbn [split_andor andor_events].
    destruct (skip && py_isspace c) eqn:E.
    + apply andb_true_iff in E as [E1 E2].
      pose proof (Hskip E1) as ->.
      fold (is_op c c2). rewrite (space_not_op c c2 E2). cbn [split_at_cuts].
      apply IH2; [intros _; reflexivity|].
      simpl in Hl |- *. rewrite lstrip_app, <- Hl. simpl. rewrite E2. reflexivity.
    + fold (is_op c c2). destruct (is_op c c2); cbn [split_at_cuts].
      * constructor.
        -- rewrite piece_segments_rstrip. apply piece_segments_lstrip_eq. exact Hl.
        -- apply IH1; reflexivity.
      * apply IH2; [discriminate | apply lstrip_eq_app; exact Hl].
Qed.

Lemma Forall2_flat_map_eq (f : string -> list string) (l1 l2 : list string) :
  Forall2 (fun p q => f p = f q) l1 l2 -> flat_map f l1 = flat_map f l2.
Proof. induction 1 as [|p q l1 l2 Hpq _ IH]; simpl; [reflexivity | rewrite Hpq, IH; reflexivity]. Qed.

Lemma flat_map_piece_segments (l : list string) :
  flat_map (piece_segments EmptyString) l =
  filter nonempty (map strip (flat_map (fun p => split_char ";" p EmptyString) l)).
Proof.
  induction l as [|p l IH]; simpl; [reflexivity|].
  rewrite map_app, filter_app, IH. reflexivity.
Qed.

Lemma split_char_events (p acc : string) :
  split_char ";" p acc = split_at_cuts (map semi (char_events p)) acc.
Proof.
  revert acc. induction p as [|c p IH]; intros acc; simpl; [reflexivity|].
  destruct (ascii_eqb c ";"); simpl; rewrite IH; reflexivity.
Qed.

Lemma split_at_cuts_app_cut (X Y : list (option ascii)) (acc : string) :
  split_at_cuts (app X (None :: Y)) acc = app (split_at_cuts X acc) (split_at_cuts Y EmptyString).
Proof.
  revert acc. induction X as [|[c|] X IH]; intros acc; simpl; [reflexivity | apply IH | rewrite IH; reflexivity].
Qed.

Lemma char_events_app (x : string) (c : ascii) :
  char_events (x ++ str1 c) = app (char_events x) [Some c].
Proof. induction x as [|d x IH]; simpl; [reflexivity | rewrite IH; reflexivity]. Qed.

Lemma flat_map_split_at_cuts (E : list (option ascii)) : forall cur,
  flat_map (fun p => split_char ";" p EmptyString) (split_at_cuts E cur) =
  split_at_cuts (app (map semi (char_events cur)) (map semi E)) EmptyString.
Proof.
  induction E as [|[c|] E IH]; intros cur; simpl.
  - rewrite !app_nil_r. apply split_char_events.
  - rewrite IH, char_events_app, map_app, <- app_assoc. reflexivity.
  - rewrite IH. simpl. rewrite split_char_events, split_at_cuts_app_cut. reflexivity.
Qed.

Lemma semi_andor_events (s : string) : map semi (andor_events s) = separator_events s.
Proof.
  induction s as [|c|c c2 s IH1 IH2] using string_ind2.
  - reflexivity.
  - simpl. destruct (ascii_eqb c ";"); reflexivity.
  - assert (Ha : andor_events (String c (String c2 s)) =
                 if is_op c c2 then None :: andor_events s else Some c :: andor_events (String c2 s))
      by reflexivity.
    assert (Hs : separator_events (String c (String c2 s)) =
                 if ascii_eqb c ";" then None :: separator_events (String c2 s)
                 else if is_op c c2 then None :: separator_events s
                 else Some c :: separator_events (String c2 s))
      by reflexivity.
    rewrite Ha, Hs. destruct (ascii_eqb c ";") eqn:E.
    + rewrite (semicolon_not_op c c2 E). cbn [map]. unfold semi at 1. rewrite E, IH2. reflexivity.
    + destruct (is_op c c2); cbn [map]; [rewrite IH1 | unfold semi at 1; rewrite E, IH2]; reflexivity.
Qed.

Lemma split_command_segments_refines (s : string) :
  split_command_segments s = split_command_segments_spec s.
Proof.
  unfold split_command_segments, split_command_segments_spec.
  change (fun segment => filter nonempty (map strip (split_char ";" segment EmptyString)))
    with (piece_segments EmptyString).
  rewrite (Forall2_flat_map_eq _ _ _
             (split_andor_events s EmptyString EmptyString false (fun H => ltac:(discriminate)) eq_refl)).
  rewrite flat_map_piece_segments, flat_map_split_at_cuts. simpl.
  rewrite semi_andor_events. reflexivity.
Qed.

(** A blank input has no separators, yet it yields no segment, not the
    (empty) trimmed input. *)
Lemma segments_blank_cex :
  has_separator "   " = false /\ strip "   " = EmptyString /\
  split_command_segments "   " = [] /\ split_command_segments EmptyString = [].
Proof. repeat split; vm_compute; reflexivity. Qed.

(** ** C9
    The Segmenter returns, in order of appearance, the trimmed non-empty
    pieces between the occurrences of [;], [&&] and [||] (it equals the
    one-pass split of the spec); every segment is non-empty and trimmed, so
    consecutive separators give no empty segment; an input with no separator
    yields its trimmed self when that is non-empty and nothing otherwise;
    [a; b && c || d] yields [a], [b], [c], [d]. *)
Theorem segments_trimmed_in_order :
  (forall s, split_command_segments s = split_command_segments_spec s) /\
  (forall s, Forall (fun seg => nonempty seg = true /\ strip seg = seg) (split_command_segments s)) /\
  (forall s, has_separator s = false ->
     split_command_segments s = if nonempty (strip s) then [strip s] else []) /\
  split_command_segments "a; b && c || d" = ["a"; "b"; "c"; "d"] /\
  split_command_segments "a ;; b" = ["a"; "b"].
Proof.
  split; [exact split_command_segments_refines|].
  split; [|split; [|split; vm_compute; reflexivity]].
  - intros s. apply Forall_forall. intros seg Hin.
    unfold split_command_segments in Hin. apply in_flat_map in Hin as [piece [_ Hin]].
    apply filter_In in Hin as [Hin Hne]. apply in_map_iff in Hin as [x [<- _]].
    split; [exact Hne | apply strip_idem].
  - intros s Hs. unfold split_command_segments.
    rewrite split_andor_no_separator by exact Hs. simpl.
    rewrite split_char_absent by (apply no_separator_no_semicolon; exact Hs). simpl.
    destruct (nonempty (strip s)); reflexivity.
Qed.

Lemma segments_trimmed_in_order_witness :
  split_command_segments "  ls -la " = ["ls -la"].
Proof.
  exact (proj1 (proj2 (proj2 segments_trimmed_in_order)) "  ls -la " eq_refl).
Defined.

(** * Lemmas on the hook, the validators and the splitters *)

(** ** Characters of strings *)

Lemma str_mem_cons_iff (c d : ascii) (s : string) :
  str_mem c (String d s) = true <-> c = d \/ str_mem c s = true.
Proof.
  simpl. rewrite orb_true_iff. unfold ascii_eqb.
  destruct (ascii_dec c d); split; intros [H|H]; try tauto; discriminate.
Qed.

Lemma str_mem_app_iff (c : ascii) (a b : string) :
  str_mem c (a ++ b) = true <-> str_mem c a = true \/ str_mem c b = true.
Proof.
  induction a as [|d a IH]; simpl; [split; [intros H; right; exact H | intros [H|H]; [discriminate | exact H]] |].
  rewrite !orb_true_iff, IH. tauto.
Qed.

Lemma str_mem_empty (P : ascii -> Prop) (c : ascii) : str_mem c EmptyString = true -> P c.
Proof. intros H. discriminate H. Qed.

Lemma str_mem_false (x : ascii) (s : string) :
  (forall c, str_mem c s = true -> c <> x) -> str_mem x s = false.
Proof.
  intros H. destruct (str_mem x s) eqn:E; [exfalso; exact (H x E eq_refl) | reflexivity].
Qed.

Lemma str_mem_false_neq (x c : ascii) (s : string) :
  str_mem x s = false -> str_mem c s = true -> c <> x.
Proof. intros Hx Hc ->. congruence. Qed.

Lemma ascii_eqb_false (a b : ascii) : ascii_eqb a b = false -> a <> b.
Proof. unfold ascii_eqb. destruct (ascii_dec a b); [discriminate | tauto]. Qed.

(** ** The hook loop, in full *)

Lemma check_commands_allow_iff (command : string) (segments cmds : list string) :
  check_commands command segments cmds = Ok Allow <-> Forall (passes command segments) cmds.
Proof.
  induction cmds as [|c rest IH]; simpl; [split; [constructor | reflexivity]|].
  destruct (mem c ALLOWED_COMMANDS) eqn:Ea; simpl.
  - destruct (mem c COMMANDS_NEEDING_EXTRA_VALIDATION) eqn:Ex.
    + destruct (run_validator c (segment_for command c segments)) as [[[|] r]|e] eqn:Ev.
      * rewrite IH. split.
        -- intros H. constructor; [|exact H]. split; [exact Ea | intros _; exists r; exact Ev].
        -- intros H. exact (Forall_inv_tail H).
      * split; [discriminate|]. intros H. destruct (Forall_inv H) as [_ Hx].
        destruct (Hx Ex) as [r' Hr']. rewrite Ev in Hr'. discriminate.
      * split; [discriminate|]. intros H. destruct (Forall_inv H) as [_ Hx].
        destruct (Hx Ex) as [r' Hr']. rewrite Ev in Hr'. discriminate.
    + rewrite IH. split.
      * intros H. constructor; [|exact H]. split; [exact Ea | intros Hx; congruence].
      * intros H. exact (Forall_inv_tail H).
  - split; [discriminate|]. intros H. destruct (Forall_inv H) as [Ha _]. congruence.
Qed.

Lemma check_commands_block (command : string) (segments cmds : list string) (r : string) :
  check_commands command segments cmds = Ok (Block r) ->
  (exists n, In n cmds /\ mem n ALLOWED_COMMANDS = false /\ r = not_allowed_reason n) \/
  (exists n, In n cmds /\ mem n COMMANDS_NEEDING_EXTRA_VALIDATION = true /\
             run_validator n (segment_for command n segments) = Ok (false, r)).
Proof.
  induction cmds as [|c rest IH]; simpl; [discriminate|].
  destruct (mem c ALLOWED_COMMANDS) eqn:Ea; simpl.
  - destruct (mem c COMMANDS_NEEDING_EXTRA_VALIDATION) eqn:Ex.
    + destruct (run_validator c _) as [[[|] r']|e] eqn:Ev; intros H.
      * destruct (IH H) as [[n [Hn Hr]] | [n [Hn Hr]]]; [left | right];
          exists n; (split; [right; exact Hn | exact Hr]).
      * injection H as Hr. subst r'. right. exists c.
        split; [left; reflexivity | split; [exact Ex | exact Ev]].
      * discriminate.
    + intros H. destruct (IH H) as [[n [Hn Hr]] | [n [Hn Hr]]]; [left | right];
        exists n; (split; [right; exact Hn | exact Hr]).
  - intros H. injection H as Hr. left. exists c.
    split; [left; reflexivity | split; [exact Ea | symmetry; exact Hr]].
Qed.

Lemma check_commands_congr (c1 c2 : string) (s1 s2 cmds : list string) :
  (forall n, In n cmds -> mem n COMMANDS_NEEDING_EXTRA_VALIDATION = true ->
     segment_for c1 n s1 = segment_for c2 n s2) ->
  check_commands c1 s1 cmds = check_commands c2 s2 cmds.
Proof.
  induction cmds as [|c rest IH]; simpl; intros H; [reflexivity|].
  destruct (mem c ALLOWED_COMMANDS); simpl; [|reflexivity].
  destruct (mem c COMMANDS_NEEDING_EXTRA_VALIDATION) eqn:Ex.
  - rewrite (H c (or_introl eq_refl) Ex).
    destruct (run_validator c _) as [[[|] r]|e]; [|reflexivity|reflexivity].
    apply IH. intros n Hn. apply H. right. exact Hn.
  - apply IH. intros n Hn. apply H. right. exact Hn.
Qed.


(** ** The validators' reasons *)

Lemma pkill_reason_iff (s : string) (b : bool) (r : string) :
  validate_pkill_command s = Ok (b, r) -> (b = true <-> r = EmptyString).
Proof.
  unfold validate_pkill_command.
  destruct (shlex_split s) as [[|t0 toks]|];
    [intros H; injection H as <- <-; split; discriminate | |
     intros H; injection H as <- <-; split; discriminate].
  destruct (rev _) as [|target0 args]; [intros H; injection H as <- <-; split; discriminate|].
  destruct (str_mem " " target0); [destruct (py_split target0) as [|w ws]; [discriminate|] |];
    cbv zeta; destruct (mem _ allowed_process_names); intros H; injection H as <- <-;
    split; first [reflexivity | discriminate].
Qed.

Lemma chmod_reason_iff (s : string) :
  fst (validate_chmod_command s) = true <-> snd (validate_chmod_command s) = EmptyString.
Proof.
  unfold validate_chmod_command.
  destruct (shlex_split s) as [[|t0 toks]|]; simpl; [split; discriminate | | split; discriminate].
  destruct (String.eqb t0 "chmod"); simpl; [|split; discriminate].
  destruct (chmod_scan toks None []) as [[[mode|] [|f files]]|]; simpl; try (split; discriminate).
  destruct (chmod_mode_ok mode); simpl; split; first [reflexivity | discriminate].
Qed.

Lemma init_reason_iff (s : string) :
  fst (validate_init_script s) = true <-> snd (validate_init_script s) = EmptyString.
Proof.
  unfold validate_init_script.
  destruct (shlex_split s) as [[|script toks]|]; simpl; try (split; discriminate).
  destruct (String.eqb script "./init.sh" || ends_with "/init.sh" script); simpl;
    split; first [reflexivity | discriminate].
Qed.

Lemma run_validator_deny_reason (n seg r : string) :
  run_validator n seg = Ok (false, r) -> r <> EmptyString.
Proof.
  unfold run_validator. intros H Hr. subst r.
  destruct (String.eqb n "pkill").
  - discriminate (proj2 (pkill_reason_iff _ _ _ H) eq_refl).
  - destruct (String.eqb n "chmod").
    + injection H as H1.
      pose proof (proj2 (chmod_reason_iff seg)) as Hc.
      destruct (validate_chmod_command seg) as [b r]. simpl in *. injection H1 as -> ->.
      discriminate (Hc eq_refl).
    + destruct (String.eqb n "init.sh"); [|discriminate].
      injection H as H1.
      pose proof (proj2 (init_reason_iff seg)) as Hc.
      destruct (validate_init_script seg) as [b r]. simpl in *. injection H1 as -> ->.
      discriminate (Hc eq_refl).
Qed.

(** ** The segment handed to a validator *)

Lemma segments_nonempty (s : string) :
  Forall (fun seg => nonempty seg = true) (split_command_segments s).
Proof.
  apply Forall_forall. intros seg Hin.
  unfold split_command_segments in Hin. apply in_flat_map in Hin as [piece [_ Hin]].
  apply filter_In in Hin as [_ Hne]. exact Hne.
Qed.

Lemma get_command_for_validation_first (cmd : string) (segments : list string) :
  (Forall (fun seg => mem cmd (extract_commands seg) = false) segments /\
   get_command_for_validation cmd segments = EmptyString) \/
  (exists pre seg post, segments = app pre (seg :: post) /\
   Forall (fun s => mem cmd (extract_commands s) = false) pre /\
   mem cmd (extract_commands seg) = true /\
   get_command_for_validation cmd segments = seg).
Proof.
  induction segments as [|s rest IH]; simpl; [left; split; [constructor | reflexivity]|].
  destruct (mem cmd (extract_commands s)) eqn:E.
  - right. exists [], s, rest. repeat split; [constructor | exact E].
  - destruct IH as [[Hf Hg] | [pre [seg [post [Hs [Hpre [Hseg Hg]]]]]]].
    + left. split; [constructor; [exact E | exact Hf] | exact Hg].
    + right. exists (s :: pre), seg, post.
      repeat split; [rewrite Hs; reflexivity | constructor; [exact E | exact Hpre] | exact Hseg | exact Hg].
Qed.

(** ** The pkill validator *)

Lemma py_split_aux_nil (s cur : string) :
  py_split_aux s cur = [] <-> cur = EmptyString /\ all_space s = true.
Proof.
  revert cur. induction s as [|c s IH]; intros cur; simpl.
  - destruct (String.eqb cur EmptyString) eqn:E.
    + apply String.eqb_eq in E. tauto.
    + apply String.eqb_neq in E. split; [discriminate | tauto].
  - destruct (py_isspace c); simpl.
    + destruct (String.eqb cur EmptyString) eqn:E; simpl.
      * apply String.eqb_eq in E. rewrite IH. tauto.
      * apply String.eqb_neq in E. split; [discriminate | tauto].
    + rewrite IH. split; [intros [H _]; destruct cur; discriminate | intros [_ H]; discriminate].
Qed.

(** ** What the extractor's names are made of *)

Lemma sub_star_pres (P : ascii -> Prop) (x : ascii) (s pend : string) (skip : bool) :
  P " "%char -> (forall c, str_mem c s = true -> c <> x -> P c) ->
  (forall c, str_mem c pend = true -> P c) ->
  forall c, str_mem c (sub_star x s pend skip) = true -> P c.
Proof.
  intros Hsp. revert pend skip.
  induction s as [|d s IH]; intros pend skip Hs Hp c Hc; cbn [sub_star] in Hc; [exact (Hp c Hc)|].
  assert (Hs' : forall c, str_mem c s = true -> c <> x -> P c)
    by (intros c' H'; apply Hs; apply str_mem_cons_iff; right; exact H').
  assert (He : forall c, str_mem c EmptyString = true -> P c) by (intros c' H'; discriminate H').
  destruct (ascii_eqb d x) eqn:Ex.
  - cbn [append] in Hc. apply str_mem_cons_iff in Hc as [->|Hc]; [exact Hsp | exact (IH _ _ Hs' He c Hc)].
  - assert (Hd : P d) by (apply Hs; [apply str_mem_cons_iff; left; reflexivity | apply ascii_eqb_false; exact Ex]).
    destruct (py_isspace d); [destruct skip|].
    + exact (IH _ _ Hs' He c Hc).
    + refine (IH _ _ Hs' _ c Hc). intros c' H'. apply str_mem_app_iff in H' as [H'|H'];
        [exact (Hp c' H') | apply str_mem_cons_iff in H' as [->|H']; [exact Hd | discriminate H']].
    + apply str_mem_app_iff in Hc as [Hc|Hc]; [exact (Hp c Hc)|].
      apply str_mem_cons_iff in Hc as [->|Hc]; [exact Hd | exact (IH _ _ Hs' He c Hc)].
Qed.

Lemma sub_plus2_pres (P : ascii -> Prop) (x : ascii) :
  P " "%char -> forall n s pend skip, String.length s <= n ->
  (forall c, str_mem c s = true -> P c) -> (forall c, str_mem c pend = true -> P c) ->
  forall c, str_mem c (sub_plus2 x s pend skip) = true -> P c.
Proof.
  intros Hsp n. induction n as [|n IH]; intros s pend skip Hl Hs Hp c Hc.
  - destruct s; [exact (Hp c Hc) | simpl in Hl; lia].
  - destruct s as [|d s]; [exact (Hp c Hc)|]. simpl in Hl.
    assert (Hs' : forall c, str_mem c s = true -> P c)
      by (intros c' H'; apply Hs; apply str_mem_cons_iff; right; exact H').
    assert (Hd : P d) by (apply Hs; apply str_mem_cons_iff; left; reflexivity).
    assert (He : forall c, str_mem c EmptyString = true -> P c) by (intros c' H'; discriminate H').
    cbn [sub_plus2] in Hc.
    destruct (py_isspace d).
    + destruct skip; [exact (IH s _ _ ltac:(lia) Hs' He c Hc)|].
      refine (IH s _ _ ltac:(lia) Hs' _ c Hc). intros c' H'. apply str_mem_app_iff in H' as [H'|H'];
        [exact (Hp c' H') | apply str_mem_cons_iff in H' as [->|H']; [exact Hd | discriminate H']].
    + assert (Hrest : forall c, str_mem c (pend ++ String d (sub_plus2 x s EmptyString false)) = true -> P c).
      { intros c' H'. apply str_mem_app_iff in H' as [H'|H']; [exact (Hp c' H')|].
        apply str_mem_cons_iff in H' as [->|H']; [exact Hd | exact (IH s _ _ ltac:(lia) Hs' He c' H')]. }
      destruct s as [|c2 [|c3 s3]]; try exact (Hrest c Hc).
      cbv beta iota in Hc.
      destruct (nonempty pend && ascii_eqb d x && ascii_eqb c2 x && py_isspace c3); [|exact (Hrest c Hc)].
      cbn [append] in Hc. apply str_mem_cons_iff in Hc as [->|Hc]; [exact Hsp|].
      refine (IH s3 _ _ _ _ He c Hc); [simpl in Hl; lia|].
      intros c' H'. apply Hs'. apply str_mem_cons_iff. right. apply str_mem_cons_iff. right. exact H'.
Qed.

Lemma flatten_separators_chars (s : string) (c : ascii) :
  str_mem c (flatten_separators s) = true -> c <> ";"%char /\ c <> "|"%char.
Proof.
  unfold flatten_separators.
  assert (He : forall P : ascii -> Prop, forall c, str_mem c EmptyString = true -> P c)
    by (intros P c' H'; discriminate H').
  set (s1 := sub_star ";" s EmptyString false).
  assert (H1 : forall c, str_mem c s1 = true -> c <> ";"%char).
  { apply sub_star_pres; [discriminate | intros c' _ H'; exact H' | apply He]. }
  set (s2 := sub_plus2 amp s1 EmptyString false).
  assert (H2 : forall c, str_mem c s2 = true -> c <> ";"%char).
  { apply (sub_plus2_pres (fun c => c <> ";"%char) amp ltac:(discriminate) (String.length s1)); [lia | exact H1 | apply He]. }
  set (s3 := sub_plus2 bar s2 EmptyString false).
  assert (H3 : forall c, str_mem c s3 = true -> c <> ";"%char).
  { apply (sub_plus2_pres (fun c => c <> ";"%char) bar ltac:(discriminate) (String.length s2)); [lia | exact H2 | apply He]. }
  revert c. apply sub_star_pres; [split; discriminate | | apply He].
  intros c' Hc' Hb. split; [exact (H3 c' Hc') | exact Hb].
Qed.

Lemma py_split_aux_pres (P : ascii -> Prop) (s cur : string) :
  (forall c, str_mem c s = true -> py_isspace c = false -> P c) ->
  (forall c, str_mem c cur = true -> P c) ->
  forall t, In t (py_split_aux s cur) -> forall c, str_mem c t = true -> P c.
Proof.
  revert cur. induction s as [|d s IH]; intros cur Hs Hc t Ht; cbn [py_split_aux] in Ht.
  - destruct (String.eqb cur EmptyString); [destruct Ht | destruct Ht as [<-|[]]; exact Hc].
  - assert (Hs' : forall c, str_mem c s = true -> py_isspace c = false -> P c)
      by (intros c' H'; apply Hs; apply str_mem_cons_iff; right; exact H').
    destruct (py_isspace d) eqn:Ed.
    + apply in_app_or in Ht as [Ht|Ht].
      * destruct (String.eqb cur EmptyString); [destruct Ht | destruct Ht as [<-|[]]; exact Hc].
      * exact (IH _ Hs' (str_mem_empty P) t Ht).
    + refine (IH _ Hs' _ t Ht). intros c H. apply str_mem_app_iff in H as [H|H]; [exact (Hc c H)|].
      apply str_mem_cons_iff in H as [->|H]; [|discriminate H].
      apply Hs; [apply str_mem_cons_iff; left; reflexivity | exact Ed].
Qed.

Lemma after_last_pres (P : ascii -> Prop) (sep : ascii) (s acc : string) :
  (forall c, str_mem c s = true -> c <> sep -> P c) -> (forall c, str_mem c acc = true -> P c) ->
  forall c, str_mem c (after_last sep s acc) = true -> P c.
Proof.
  revert acc. induction s as [|d s IH]; intros acc Hs Ha c Hc; cbn [after_last] in Hc; [exact (Ha c Hc)|].
  assert (Hs' : forall c, str_mem c s = true -> c <> sep -> P c)
    by (intros c' H'; apply Hs; apply str_mem_cons_iff; right; exact H').
  destruct (ascii_eqb d sep) eqn:Ed.
  - exact (IH _ Hs' (str_mem_empty P) c Hc).
  - refine (IH _ Hs' _ c Hc). intros c' H'. apply str_mem_app_iff in H' as [H'|H']; [exact (Ha c' H')|].
    apply str_mem_cons_iff in H' as [->|H']; [|discriminate H'].
    apply Hs; [apply str_mem_cons_iff; left; reflexivity | apply ascii_eqb_false; exact Ed].
Qed.

Lemma before_first_pres (P : ascii -> Prop) (sep : ascii) (s : string) :
  (forall c, str_mem c s = true -> c <> sep -> P c) ->
  forall c, str_mem c (before_first sep s) = true -> P c.
Proof.
  induction s as [|d s IH]; intros Hs c Hc; cbn [before_first] in Hc; [discriminate Hc|].
  destruct (ascii_eqb d sep) eqn:Ed; [discriminate Hc|].
  apply str_mem_cons_iff in Hc as [->|Hc].
  - apply Hs; [apply str_mem_cons_iff; left; reflexivity | apply ascii_eqb_false; exact Ed].
  - apply IH; [|exact Hc]. intros c' H'. apply Hs. apply str_mem_cons_iff. right. exact H'.
Qed.

Lemma normalize_shape (t : string) :
  (forall c, str_mem c (normalize t) = true -> str_mem c t = true /\ c <> "/"%char) /\
  (str_mem "." (normalize t) = true -> ends_with ".sh" (normalize t) = true).
Proof.
  unfold normalize. set (cmd := after_last "/" t EmptyString).
  assert (Hcmd : forall c, str_mem c cmd = true -> str_mem c t = true /\ c <> "/"%char).
  { apply after_last_pres; [intros c H1 H2; split; assumption | intros c H; discriminate H]. }
  destruct (ends_with ".sh" cmd) eqn:E1; [split; [exact Hcmd | intros _; exact E1]|].
  destruct (str_mem "." cmd) eqn:E2.
  - split.
    + apply before_first_pres. intros c Hc _. exact (Hcmd c Hc).
    + intros H. exfalso.
      exact (before_first_pres (fun c => c <> "."%char) "." cmd (fun c _ Hne => Hne) _ H eq_refl).
  - split; [exact Hcmd | intros H; congruence].
Qed.

Lemma extract_loop_origin (parts acc : list string) (n : string) :
  In n (extract_loop parts acc) ->
  In n acc \/
  exists t, In t parts /\ keep_token t = true /\ nonempty (normalize t) = true /\ normalize t = n.
Proof.
  revert acc. induction parts as [|p rest IH]; simpl; intros acc H; [left; exact H|].
  assert (Hr : forall acc', In n (extract_loop rest acc') -> (In n acc' -> In n acc \/
            exists t, (p = t \/ In t rest) /\ keep_token t = true /\ nonempty (normalize t) = true /\
            normalize t = n) ->
            In n acc \/ exists t, (p = t \/ In t rest) /\ keep_token t = true /\
            nonempty (normalize t) = true /\ normalize t = n).
  { intros acc' H' Hacc. destruct (IH _ H') as [H1 | [t [Ht Hrest]]]; [exact (Hacc H1)|].
    right. exists t. split; [right; exact Ht | exact Hrest]. }
  destruct (keep_token p) eqn:Ek; [|exact (Hr _ H (fun H1 => or_introl H1))].
  destruct (nonempty (normalize p) && negb (mem (normalize p) acc)) eqn:Ea;
    [|exact (Hr _ H (fun H1 => or_introl H1))].
  apply (Hr _ H). intros H1. apply in_app_or in H1 as [H1|[<-|[]]]; [left; exact H1|].
  right. exists p. apply andb_true_iff in Ea as [Ea _].
  split; [left; reflexivity | split; [exact Ek | split; [exact Ea | reflexivity]]].
Qed.

(** ** Segments hold no separator *)

Lemma has_separator_cons (c : ascii) (s : string) :
  has_separator (String c s) =
  ascii_eqb c ";" || match s with String c2 _ => is_op c c2 | EmptyString => false end ||
  has_separator s.
Proof. reflexivity. Qed.

Lemma last_char_snoc (cur : string) (c : ascii) : last_char (cur ++ str1 c) = Some c.
Proof.
  induction cur as [|d cur IH]; [reflexivity|]. cbn [append].
  destruct cur as [|e cur]; [reflexivity | exact IH].
Qed.

Lemma has_separator_snoc (cur : string) (c : ascii) :
  has_separator (cur ++ str1 c) =
  has_separator cur || ascii_eqb c ";" ||
  match last_char cur with Some d => is_op d c | None => false end.
Proof.
  induction cur as [|d cur IH]; cbn [append].
  - simpl. destruct (ascii_eqb c ";"); reflexivity.
  - rewrite !has_separator_cons, IH.
    destruct cur as [|e cur']; cbn [append].
    + simpl. destruct (ascii_eqb d ";"), (is_op d c), (ascii_eqb c ";"); reflexivity.
    + change (last_char (String d (String e cur'))) with (last_char (String e cur')).
      destruct (ascii_eqb d ";"), (is_op d e), (has_separator (String e cur')), (ascii_eqb c ";"),
        (match last_char (String e cur') with Some d0 => is_op d0 c | None => false end); reflexivity.
Qed.

Lemma has_separator_app (a b : string) :
  has_separator (a ++ b) = false -> has_separator a = false /\ has_separator b = false.
Proof.
  induction a as [|d a IH]; cbn [append]; [intros H; split; [reflexivity | exact H]|].
  rewrite !has_separator_cons. intros H.
  apply orb_false_iff in H as [H H3]. apply orb_false_iff in H as [H1 H2].
  destruct (IH H3) as [Ha Hb]. split; [|exact Hb].
  rewrite H1, Ha. destruct a as [|e a]; [reflexivity|]. simpl in H2. rewrite H2. reflexivity.
Qed.

Lemma has_separator_strip (x : string) : has_separator x = false -> has_separator (strip x) = false.
Proof.
  intros H. unfold strip.
  destruct (lstrip_decomp x) as [w [_ Hw]]. rewrite Hw in H.
  apply has_separator_app in H as [_ H].
  destruct (rstrip_decomp (lstrip x)) as [w' [_ Hw']]. rewrite Hw' in H.
  apply has_separator_app in H as [H _]. exact H.
Qed.

Lemma split_at_cuts_no_separator (s : string) : forall cur,
  has_separator cur = false -> cut_boundary_ok cur s ->
  Forall (fun p => has_separator p = false) (split_at_cuts (separator_events s) cur).
Proof.
  induction s as [|c|c c2 s IH1 IH2] using string_ind2; intros cur Hcur Hb.
  - repeat constructor. exact Hcur.
  - simpl. destruct (ascii_eqb c ";") eqn:E; simpl.
    + repeat constructor. exact Hcur.
    + repeat constructor. rewrite has_separator_snoc, Hcur, E. unfold cut_boundary_ok in Hb.
      destruct (last_char cur); [rewrite (Hb E)|]; reflexivity.
  - assert (Hs : separator_events (String c (String c2 s)) =
                 if ascii_eqb c ";" then None :: separator_events (String c2 s)
                 else if is_op c c2 then None :: separator_events s
                 else Some c :: separator_events (String c2 s))
      by reflexivity.
    rewrite Hs. destruct (ascii_eqb c ";") eqn:E; cbn [split_at_cuts].
    + constructor; [exact Hcur | apply IH2; [reflexivity | exact I]].
    + destruct (is_op c c2) eqn:Eop; cbn [split_at_cuts].
      * constructor; [exact Hcur|]. apply IH1; [reflexivity|].
        unfold cut_boundary_ok. simpl. exact I.
      * apply IH2.
        -- rewrite has_separator_snoc, Hcur, E. unfold cut_boundary_ok in Hb.
           destruct (last_char cur); [rewrite (Hb E)|]; reflexivity.
        -- unfold cut_boundary_ok. rewrite last_char_snoc. intros _. exact Eop.
Qed.

(** ** The chmod validator *)

Lemma chmod_scan_mode (tokens files : list string) (m : string) :
  chmod_scan tokens (Some m) files =
  if existsb starts_with_dash tokens then None else Some (Some m, app files tokens).
Proof.
  revert files. induction tokens as [|t rest IH]; intros files; simpl.
  - rewrite app_nil_r. reflexivity.
  - destruct (starts_with_dash t); simpl; [reflexivity|].
    rewrite IH, <- app_assoc. reflexivity.
Qed.

Lemma existsb_dash_Forall (l : list string) :
  existsb starts_with_dash l = false <-> Forall (fun t => starts_with "-" t = false) l.
Proof.
  induction l as [|t l IH]; simpl; [split; [constructor | reflexivity]|].
  rewrite orb_false_iff, IH. split.
  - intros [H1 H2]. constructor; assumption.
  - intros H. inversion H. split; assumption.
Qed.

Lemma drop_ugoa_decomp (m : string) :
  exists w, (forall c, str_mem c w = true -> str_mem c "ugoa" = true) /\ m = (w ++ drop_ugoa m)%string.
Proof.
  induction m as [|c m IH]; [exists EmptyString; split; [apply str_mem_empty | reflexivity]|].
  cbn [drop_ugoa]. destruct (str_mem c "ugoa") eqn:E.
  - destruct IH as [w [Hw Hm]]. exists (String c w). split; [|cbn [append]; rewrite <- Hm; reflexivity].
    intros d Hd. apply str_mem_cons_iff in Hd as [->|Hd]; [exact E | exact (Hw d Hd)].
  - exists EmptyString. split; [apply str_mem_empty | reflexivity].
Qed.

Lemma drop_ugoa_app (w r : string) :
  (forall c, str_mem c w = true -> str_mem c "ugoa" = true) -> drop_ugoa (w ++ r) = drop_ugoa r.
Proof.
  induction w as [|c w IH]; intros Hw; [reflexivity|]. cbn [append drop_ugoa].
  rewrite (Hw c (proj2 (str_mem_cons_iff c c w) (or_introl eq_refl))).
  apply IH. intros d Hd. apply Hw. apply str_mem_cons_iff. right. exact Hd.
Qed.

Lemma chmod_mode_ok_iff (mode : string) :
  chmod_mode_ok mode = true <->
  exists w, (forall c, str_mem c w = true -> str_mem c "ugoa" = true) /\
            (mode = (w ++ "+x")%string \/ mode = (w ++ "+x" ++ newline)%string).
Proof.
  unfold chmod_mode_ok. rewrite orb_true_iff, !String.eqb_eq. split.
  - destruct (drop_ugoa_decomp mode) as [w [Hw Hm]]. intros H. exists w. split; [exact Hw|].
    rewrite Hm. destruct H as [-> | ->]; [left | right]; reflexivity.
  - intros [w [Hw [-> | ->]]]; rewrite (drop_ugoa_app _ _ Hw); [left | right]; reflexivity.
Qed.

(** * Further properties *)

(** ** X1
    The hook allows exactly when the tool is not Bash, or the command is
    empty, or every extracted name is allowlisted and every extra-validated
    name's validator allows the segment found for it. *)
Theorem hook_allow_iff (tool_name command : string) :
  bash_security_hook tool_name command = Ok Allow <->
  tool_name <> "Bash" \/ command = EmptyString \/
  Forall (passes command (split_command_segments command)) (extract_commands command).
Proof.
  destruct (String.eqb tool_name "Bash") eqn:Et.
  - apply String.eqb_eq in Et. subst tool_name. fold (gate command).
    destruct (nonempty command) eqn:Hne.
    + rewrite (gate_unfold _ Hne), check_commands_allow_iff.
      split; [intros H; right; right; exact H|].
      intros [H | [-> | H]]; [contradiction H; reflexivity | discriminate | exact H].
    + apply nonempty_false in Hne. subst command.
      split; [intros _; right; left; reflexivity | intros _; reflexivity].
  - apply String.eqb_neq in Et. unfold bash_security_hook.
    replace (String.eqb tool_name "Bash") with false by (symmetry; apply String.eqb_neq; exact Et).
    split; [intros _; left; exact Et | intros _; reflexivity].
Qed.

(** ** X2
    The hook raises an exception only for a Bash command with the name
    [pkill], and only because the pkill validator raises on the segment
    found for it; the other validators and the hook itself never raise. *)
Theorem hook_raise_only_pkill (tool_name command : string) (e : py_exn) :
  bash_security_hook tool_name command = Raise e ->
  tool_name = "Bash" /\ In "pkill" (extract_commands command) /\
  validate_pkill_command (segment_for command "pkill" (split_command_segments command)) = Raise e.
Proof.
  unfold bash_security_hook.
  destruct (String.eqb tool_name "Bash") eqn:Et; simpl; [|discriminate].
  apply String.eqb_eq in Et. destruct (nonempty command); simpl; [|discriminate].
  destruct (extract_commands command) as [|x xs] eqn:E; [discriminate|]. intros H.
  destruct (check_commands_raise _ _ _ _ H) as [n [Hn Hr]].
  destruct (run_validator_raise _ _ _ Hr) as [-> Hp].
  split; [exact Et | split; [exact Hn | exact Hp]].
Qed.

Lemma hook_raise_only_pkill_witness :
  "Bash" = "Bash" /\ In "pkill" (extract_commands "pkill ' '") /\
  validate_pkill_command (segment_for "pkill ' '" "pkill" (split_command_segments "pkill ' '"))
    = Raise IndexError.
Proof. apply (hook_raise_only_pkill "Bash" "pkill ' '" IndexError). vm_compute. reflexivity. Defined.

(** ** X3
    Every block carries a non-empty reason, which is either the
    not-allowlisted message for an extracted name outside the allowlist or
    the reason a validator gave when it denied the segment of an
    extra-validated name. *)
Theorem hook_block_reason (tool_name command r : string) :
  bash_security_hook tool_name command = Ok (Block r) ->
  r <> EmptyString /\
  ((exists n, In n (extract_commands command) /\ mem n ALLOWED_COMMANDS = false /\
              r = not_allowed_reason n) \/
   (exists n, In n (extract_commands command) /\ mem n COMMANDS_NEEDING_EXTRA_VALIDATION = true /\
              run_validator n (segment_for command n (split_command_segments command)) = Ok (false, r))).
Proof.
  unfold bash_security_hook.
  destruct (String.eqb tool_name "Bash"); simpl; [|discriminate].
  destruct (nonempty command); simpl; [|discriminate].
  pose proof (extract_commands_not_nil command) as Hnn.
  destruct (extract_commands command) as [|x xs] eqn:E; [contradiction Hnn; reflexivity|]. intros H.
  destruct (check_commands_block _ _ _ _ H) as [[n [Hn [Ha Hr]]] | [n [Hn [Hx Hr]]]].
  - split; [rewrite Hr; unfold not_allowed_reason; discriminate|].
    left. exists n. split; [exact Hn | split; [exact Ha | exact Hr]].
  - split; [exact (run_validator_deny_reason _ _ _ Hr)|].
    right. exists n. split; [exact Hn | split; [exact Hx | exact Hr]].
Qed.

Lemma hook_block_reason_witness :
  "pkill requires a process name" <> EmptyString /\
  ((exists n, In n (extract_commands "pkill; rm x") /\ mem n ALLOWED_COMMANDS = false /\
              "pkill requires a process name" = not_allowed_reason n) \/
   (exists n, In n (extract_commands "pkill; rm x") /\
              mem n COMMANDS_NEEDING_EXTRA_VALIDATION = true /\
              run_validator n (segment_for "pkill; rm x" n (split_command_segments "pkill; rm x"))
                = Ok (false, "pkill requires a process name"))).
Proof. apply (hook_block_reason "Bash"). vm_compute. reflexivity. Defined.

(** ** X4
    The Gate looks at nothing but the extracted names and, for each
    extra-validated name, the one segment found for it: two commands with
    the same names and the same such segments get the same decision, so a
    later segment holding an already validated name is never validated. *)
Theorem gate_depends_on_names_and_segments (c1 c2 : string) :
  nonempty c1 = true -> nonempty c2 = true ->
  extract_commands c1 = extract_commands c2 ->
  (forall n, In n (extract_commands c1) -> mem n COMMANDS_NEEDING_EXTRA_VALIDATION = true ->
     segment_for c1 n (split_command_segments c1) = segment_for c2 n (split_command_segments c2)) ->
  gate c1 = gate c2.
Proof.
  intros H1 H2 He Hs. rewrite (gate_unfold _ H1), (gate_unfold _ H2), <- He.
  apply check_commands_congr. exact Hs.
Qed.

Lemma gate_depends_on_names_and_segments_witness :
  gate "pkill node" = gate "pkill node ; node pkill" /\
  gate "node pkill" = Ok (Block pkill_reason).
Proof.
  split; [|vm_compute; reflexivity].
  apply gate_depends_on_names_and_segments; [reflexivity | reflexivity | vm_compute; reflexivity |].
  intros n Hn _. vm_compute in Hn. destruct Hn as [<- | [<- | []]]; vm_compute; reflexivity.
Defined.

(** ** X5
    The segment handed to the validator of a name is the first segment of
    the command whose extracted names include it; when no segment's names
    include it, the whole command is handed over instead. *)
Theorem segment_for_first_match (command n : string) :
  (Forall (fun seg => mem n (extract_commands seg) = false) (split_command_segments command) /\
   segment_for command n (split_command_segments command) = command) \/
  (exists pre seg post, split_command_segments command = app pre (seg :: post) /\
   Forall (fun s => mem n (extract_commands s) = false) pre /\
   mem n (extract_commands seg) = true /\
   segment_for command n (split_command_segments command) = seg).
Proof.
  unfold segment_for. cbv zeta. pose proof (segments_nonempty command) as Hne.
  destruct (get_command_for_validation_first n (split_command_segments command))
    as [[Hf Hg] | [pre [seg [post [Hs [Hpre [Hseg Hg]]]]]]].
  - left. rewrite Hg. split; [exact Hf | reflexivity].
  - right. exists pre, seg, post. rewrite Hg.
    split; [exact Hs | split; [exact Hpre | split; [exact Hseg|]]].
    rewrite Hs in Hne. apply Forall_app in Hne as [_ Hne]. rewrite (Forall_inv Hne). reflexivity.
Qed.

(** ** X6
    Every name the extractor returns is non-empty and holds no whitespace,
    no [/], no [=], no [;] and no [|]; a name holding a dot ends in [.sh]. *)
Theorem extract_commands_name_shape (s n : string) :
  In n (extract_commands s) ->
  nonempty n = true /\
  (forall c, str_mem c n = true -> py_isspace c = false) /\
  str_mem "/" n = false /\ str_mem "=" n = false /\
  str_mem ";" n = false /\ str_mem "|" n = false /\
  (str_mem "." n = true -> ends_with ".sh" n = true).
Proof.
  unfold extract_commands. intros H.
  destruct (extract_loop (py_split (flatten_separators s)) []) as [|x xs] eqn:E.
  - destruct H as [<- | []].
    split; [reflexivity|]. split.
    + intros c Hc. repeat (apply str_mem_cons_iff in Hc as [->|Hc]; [reflexivity|]). discriminate Hc.
    + repeat split; discriminate.
  - rewrite <- E in H. destruct (extract_loop_origin _ _ _ H) as [[] | [t [Ht [Hk [Hn <-]]]]].
    assert (Heq : str_mem "=" t = false).
    { unfold keep_token in Hk. apply andb_true_iff in Hk as [_ Hk]. apply negb_true_iff. exact Hk. }
    assert (Ht' : forall c, str_mem c t = true ->
                  py_isspace c = false /\ c <> ";"%char /\ c <> "|"%char).
    { apply (py_split_aux_pres _ (flatten_separators s) EmptyString); [| apply str_mem_empty | exact Ht].
      intros c Hc Hsp. destruct (flatten_separators_chars s c Hc). tauto. }
    destruct (normalize_shape t) as [Hnc Hdot].
    split; [exact Hn|]. split; [intros c Hc; exact (proj1 (Ht' c (proj1 (Hnc c Hc))))|].
    split; [apply str_mem_false; intros c Hc; exact (proj2 (Hnc c Hc))|].
    split; [apply str_mem_false; intros c Hc; exact (str_mem_false_neq _ _ _ Heq (proj1 (Hnc c Hc)))|].
    split; [apply str_mem_false; intros c Hc; exact (proj1 (proj2 (Ht' c (proj1 (Hnc c Hc)))))|].
    split; [apply str_mem_false; intros c Hc; exact (proj2 (proj2 (Ht' c (proj1 (Hnc c Hc)))))|].
    exact Hdot.
Qed.

Lemma extract_commands_name_shape_witness :
  nonempty "rm" = true /\
  (forall c, str_mem c "rm" = true -> py_isspace c = false) /\
  str_mem "/" "rm" = false /\ str_mem "=" "rm" = false /\
  str_mem ";" "rm" = false /\ str_mem "|" "rm" = false /\
  (str_mem "." "rm" = true -> ends_with ".sh" "rm" = true).
Proof. apply (extract_commands_name_shape "/bin/rm -rf x;y|z"). vm_compute. left. reflexivity. Defined.

(** ** X7
    No segment returned by the segmenter contains [;], [&&] or [||]. *)
Theorem segments_hold_no_separator (s : string) :
  Forall (fun seg => has_separator seg = false) (split_command_segments s).
Proof.
  rewrite split_command_segments_refines. unfold split_command_segments_spec.
  apply Forall_forall. intros seg Hin. apply filter_In in Hin as [Hin _].
  apply in_map_iff in Hin as [x [<- Hx]]. apply has_separator_strip.
  pose proof (split_at_cuts_no_separator s EmptyString eq_refl I) as H.
  rewrite Forall_forall in H. exact (H x Hx).
Qed.

(** ** X8
    The chmod validator allows exactly the segments that tokenize into
    [chmod], a mode and at least one file, with no token after [chmod]
    starting with [-], and whose mode is a run of [u], [g], [o], [a]
    followed by [+x] and optionally by one newline. *)
Theorem chmod_validator_allows_iff (s : string) :
  fst (validate_chmod_command s) = true <->
  exists mode file files w,
    shlex_split s = Some ("chmod" :: mode :: file :: files) /\
    Forall (fun t => starts_with "-" t = false) (mode :: file :: files) /\
    (forall c, str_mem c w = true -> str_mem c "ugoa" = true) /\
    (mode = (w ++ "+x")%string \/ mode = (w ++ "+x" ++ newline)%string).
Proof.
  unfold validate_chmod_command.
  destruct (shlex_split s) as [toks|];
    [| split; [discriminate | intros (m & f & fs & w & H & _); discriminate H]].
  destruct toks as [|t0 toks];
    [split; [discriminate | intros (m & f & fs & w & H & _); discriminate H]|].
  destruct (String.eqb t0 "chmod") eqn:Et; cbn [negb].
  2: { split; [discriminate|]. intros (m & f & fs & w & H & _). injection H as H0 _.
       apply String.eqb_neq in Et. contradiction. }
  apply String.eqb_eq in Et. subst t0.
  destruct toks as [|mode toks].
  { split; [discriminate|]. intros (m & f & fs & w & H & _). injection H as H. discriminate H. }
  cbn [chmod_scan]. destruct (starts_with_dash mode) eqn:Ed.
  { split; [discriminate|]. intros (m & f & fs & w & H & HF & _). injection H as <- _.
    apply Forall_inv in HF. unfold starts_with_dash in Ed. congruence. }
  rewrite chmod_scan_mode. destruct (existsb starts_with_dash toks) eqn:Ex.
  { split; [discriminate|]. intros (m & f & fs & w & H & HF & _). injection H as _ Ht. subst toks.
    apply Forall_inv_tail, existsb_dash_Forall in HF. congruence. }
  destruct toks as [|f fs]; cbn [app].
  { split; [discriminate|]. intros (m & f & fs & w & H & _). injection H as _ H. discriminate H. }
  destruct (chmod_mode_ok mode) eqn:Em; cbn [negb fst].
  - split; [intros _ | intros _; reflexivity].
    apply chmod_mode_ok_iff in Em as [w [Hw Hm]]. exists mode, f, fs, w.
    split; [reflexivity|]. split; [|split; [exact Hw | exact Hm]].
    constructor; [exact Ed | apply existsb_dash_Forall; exact Ex].
  - split; [discriminate|]. intros (m & f' & fs' & w & H & _ & Hw & Hm). injection H as <- _ _.
    assert (Hok : chmod_mode_ok mode = true) by (apply chmod_mode_ok_iff; exists w; split; assumption).
    congruence.
Qed.

(** ** X9
    The pkill validator decides on the last argument after the first token
    that does not start with [-], and on nothing else: the first token and
    every other argument are ignored. *)
Theorem pkill_decides_on_last_argument (s1 s2 a1 a2 : string) (r1 r2 : list string) :
  shlex_split s1 = Some (a1 :: r1) -> shlex_split s2 = Some (a2 :: r2) ->
  hd_error (rev (filter (fun t => negb (starts_with "-" t)) r1)) =
  hd_error (rev (filter (fun t => negb (starts_with "-" t)) r2)) ->
  validate_pkill_command s1 = validate_pkill_command s2.
Proof.
  intros H1 H2 Hh. unfold validate_pkill_command. rewrite H1, H2. unfold starts_with_dash.
  destruct (rev (filter _ r1)) as [|t1 l1], (rev (filter _ r2)) as [|t2 l2];
    cbn [hd_error] in Hh; try discriminate Hh; [reflexivity|].
  injection Hh as <-. reflexivity.
Qed.

Lemma pkill_decides_on_last_argument_witness :
  validate_pkill_command "pkill sshd node" = validate_pkill_command "ps -9 node".
Proof.
  apply (pkill_decides_on_last_argument _ _ "pkill" "ps" ["sshd"; "node"] ["-9"; "node"]);
    vm_compute; reflexivity.
Defined.

(** ** X10
    The pkill validator raises exactly when its last argument that does not
    start with [-] contains a space and is made of whitespace only. *)
Theorem pkill_raises_iff (s : string) :
  validate_pkill_command s = Raise IndexError <->
  exists t0 rest target, shlex_split s = Some (t0 :: rest) /\
    hd_error (rev (filter (fun t => negb (starts_with "-" t)) rest)) = Some target /\
    str_mem " " target = true /\ all_space target = true.
Proof.
  unfold validate_pkill_command, starts_with_dash, py_split.
  destruct (shlex_split s) as [[|t0 rest]|];
    [split; [discriminate | intros (? & ? & ? & H & _); discriminate H] | |
     split; [discriminate | intros (? & ? & ? & H & _); discriminate H]].
  destruct (rev (filter _ rest)) as [|target l] eqn:Er.
  - split; [discriminate|]. intros (t0' & rest' & tg & H & Hh & _).
    injection H as <- <-. rewrite Er in Hh. discriminate Hh.
  - destruct (str_mem " " target) eqn:Es; cbv zeta.
    + destruct (py_split_aux target EmptyString) as [|w ws] eqn:Ep.
      * split; [intros _ | reflexivity]. exists t0, rest, target.
        split; [reflexivity|]. split; [rewrite Er; reflexivity|]. split; [exact Es|].
        apply py_split_aux_nil in Ep as [_ Ep]. exact Ep.
      * split; [destruct (mem w allowed_process_names); discriminate|].
        intros (t0' & rest' & tg & H & Hh & Hs & Ha). injection H as <- <-.
        rewrite Er in Hh. injection Hh as <-.
        assert (Hn : py_split_aux target EmptyString = []) by (apply py_split_aux_nil; split; [reflexivity | exact Ha]).
        congruence.
    + split; [destruct (mem target allowed_process_names); discriminate|].
      intros (t0' & rest' & tg & H & Hh & Hs & Ha). injection H as <- <-.
      rewrite Er in Hh. injection Hh as <-. congruence.
Qed.

Lemma pkill_raises_iff_witness : validate_pkill_command "pkill -9 ' '" = Raise IndexError.
Proof.
  apply pkill_raises_iff. exists "pkill", ["-9"; " "], " ".
  split; [vm_compute; reflexivity|]. split; [vm_compute; reflexivity|]. split; reflexivity.
Defined.

(** ** X11
    Each validator gives an empty reason exactly when it allows: a denial
    always comes with a message. *)
Theorem validators_reason_empty_iff_allow (s : string) :
  (forall b r, validate_pkill_command s = Ok (b, r) -> (b = true <-> r = EmptyString)) /\
  (fst (validate_chmod_command s) = true <-> snd (validate_chmod_command s) = EmptyString) /\
  (fst (validate_init_script s) = true <-> snd (validate_init_script s) = EmptyString).
Proof.
  split; [exact (pkill_reason_iff s) | split; [exact (chmod_reason_iff s) | exact (init_reason_iff s)]].
Qed.
